(** * arima.py: the forecast orchestration script

    A shallow embedding of [src/arima.py]: the derivation and validation
    of the seasonal offset (lines 78-83), the per-series loop with its
    two-branch model fit (lines 88-95), the prediction request and the
    confidence bands (lines 99-105), the drawing of the figure (lines
    107-127) and the CSV export (lines 85-86 and 129-131).

    pandas, statsmodels and matplotlib are collaborators of the script:
    they are the fields of the class [Collaborators] below.  The floats
    of the script are IEEE doubles: each one is carried as the rational
    it denotes, and every operation rounds its exact result to the
    nearest double. *)

From Stdlib Require Import ZArith QArith Qround Qpower List String Bool Lia.
From Stdlib Require Import Lqa Sorted Morphisms.
From Stdlib Require Import DecimalString.
Import ListNotations.
Local Open Scope Z_scope.

(** ** Durations and instants *)

(** [datetime.timedelta] is a whole number of microseconds; a
    [datetime] is taken as its distance from the epoch, in microseconds
    too, so that [datetime + timedelta] and [datetime - timedelta] are
    additions and subtractions of integers. *)
Definition timedelta := Z.
Definition datetime := Z.

Definition microseconds_per_second : positive := 1000000.

(** [timedelta(seconds=n)], [timedelta(hours=n)], [timedelta(days=n)] *)
Definition seconds (n : Z) : timedelta := n * Zpos microseconds_per_second.
Definition hours (n : Z) : timedelta := seconds (3600 * n).
Definition days (n : Z) : timedelta := seconds (86400 * n).

(** [bool(timedelta)]: a duration is falsy exactly when it is zero. *)
Definition timedelta_bool (td : timedelta) : bool := negb (td =? 0).

(** Truth value of an optional command-line argument: [None] is falsy,
    a value has its own truth value. *)
Definition arg_bool (a : option timedelta) : bool :=
  match a with
  | Some td => timedelta_bool td
  | None => false
  end.

(** ** Exceptions *)

(** The two messages that the script hands to [parser.error]; the first
    one is an f-string over [step] and [args.seasonal_period]. *)
Inductive parser_message : Type :=
| SeasonalPeriodTooShort (step : timedelta) (seasonal_period : option timedelta)
| SeasonalPeriodNotMultiple.

(** What can end the script early.  [ParserError] is [parser.error]:
    the message goes to the standard error and the interpreter exits
    with status 2.  [FitError] stands for whatever the constructor of
    the model or its [fit()] raise, [LibraryError] for what any other
    call into statsmodels or matplotlib raises. *)
Inductive exn : Type :=
| AttributeError
| TypeError
| ZeroDivisionError
| KeyError (key : string)
| ParserError (msg : parser_message)
| FitError (detail : string)
| LibraryError (detail : string).

(** ** Pure computations that may raise *)

Definition result (A : Type) : Type := (exn + A)%type.

Definition ret {A} (a : A) : result A := inr a.
Definition raise {A} (e : exn) : result A := inl e.
Definition bind {A B} (m : result A) (k : A -> result B) : result B :=
  match m with
  | inl e => inl e
  | inr a => k a
  end.

Declare Scope result_scope.
Delimit Scope result_scope with result.
Notation "x <- m ;; k" := (bind m (fun x => k))
  (at level 61, m at next level, right associativity) : result_scope.

(** A [for] loop, or a comprehension, whose body may raise. *)
Fixpoint each {A} (l : list A) (body : A -> result unit) : result unit :=
  match l with
  | [] => ret tt
  | x :: rest => (_ <- body x ;; each rest body)%result
  end.

Fixpoint collect {A B} (l : list A) (body : A -> result B) : result (list B) :=
  match l with
  | [] => ret []
  | x :: rest =>
      (y <- body x ;; ys <- collect rest body ;; ret (y :: ys))%result
  end.

(** ** Floats *)

(** A float is a double, carried as the rational it denotes. *)
Definition float := Q.

Module PyFloat.

(** [2 ** e] *)
Definition pow2 (e : Z) : Q := (2 ^ e)%Q.

(** The binade of a positive rational: the [b] with
    [2 ** b <= x < 2 ** (b + 1)]. *)
Definition binade (x : Q) : Z :=
  let k := Z.log2 (Qnum x) - Z.log2 (Zpos (Qden x)) in
  if Qle_bool (pow2 k) x then k else k - 1.

(** The nearest integer, a tie going to the even one. *)
Definition nearest_even (x : Q) : Z :=
  let f := Qfloor x in
  match (x - inject_Z f ?= 1 # 2)%Q with
  | Lt => f
  | Gt => f + 1
  | Eq => if Z.even f then f else f + 1
  end.

(** The nearest double of a positive rational: 53 significant bits,
    ties to even, with no bound on the exponent.  Overflow and
    subnormals are left out: the floats of the script come from counts
    of microseconds and nanoseconds that fit in 64 bits, far from both
    ends of the range of a double. *)
Definition round_pos (x : Q) : Q :=
  let e := binade x - 52 in
  (inject_Z (nearest_even (x * pow2 (- e))) * pow2 e)%Q.

(** The nearest double of a rational. *)
Definition round (x : Q) : float :=
  match (x ?= 0)%Q with
  | Eq => 0%Q
  | Gt => round_pos x
  | Lt => (- round_pos (- x))%Q
  end.

(** [a / b] on two [int]: the quotient, rounded once. *)
Definition truediv (a b : Z) : float := round (inject_Z a / inject_Z b).

(** C's [fmod]: exact, the remainder has the sign of [x]. *)
Definition fmod (x y : float) : float :=
  let q := (x / y)%Q in
  (x - y * inject_Z (Z.quot (Qnum q) (Zpos (Qden q))))%Q.

(** [x < 0] *)
Definition negative (x : float) : bool := negb (Qle_bool 0 x).

(** [vx // wx] on floats, as [float_floor_div] computes it: from the
    [fmod], a rounded subtraction and division, the correction of the
    sign, and the snap of the quotient to an integer. *)
Definition floordiv (vx wx : float) : result float :=
  if Qeq_bool wx 0 then raise ZeroDivisionError
  else
    let md := fmod vx wx in
    let div := round (round (vx - md) / wx) in
    let div :=
      if negb (Qeq_bool md 0) && xorb (negative wx) (negative md)
      then round (div - 1) else div in
    if Qeq_bool div 0 then ret 0%Q
    else
      let floordiv := inject_Z (Qfloor div) in
      if negb (Qle_bool (round (div - floordiv)) (1 # 2))
      then ret (round (floordiv + 1))
      else ret floordiv.

(** [vx % wx] on floats, as [float_rem] computes it: the remainder has
    the sign of the divisor. *)
Definition mod_ (vx wx : float) : result float :=
  if Qeq_bool wx 0 then raise ZeroDivisionError
  else
    let md := fmod vx wx in
    if negb (Qeq_bool md 0) && xorb (negative wx) (negative md)
    then ret (round (md + wx)) else ret md.

(** [int(x)]: truncation towards zero. *)
Definition int (x : float) : Z := Z.quot (Qnum x) (Zpos (Qden x)).

(** [x != 0] *)
Definition nonzero (x : float) : bool := negb (Qeq_bool x 0).

(** [round(x, 6)]: the nearest double of [x] rounded to six decimals,
    ties to even. *)
Definition round_ndigits6 (x : float) : float :=
  round (inject_Z (nearest_even (x * 1000000)) / 1000000).

End PyFloat.

(** [timedelta.total_seconds()]: the microseconds over [10 ** 6], a
    true division of two [int]. *)
Definition total_seconds (td : timedelta) : float :=
  PyFloat.truediv td (Zpos microseconds_per_second).

(** [timestamp()] of a label of the forecast index, a
    [pandas.Timestamp]: [round(value / 10 ** 9, 6)] on its count of
    nanoseconds, both operands of the division converted to double. *)
Definition timestamp (dt : datetime) : float :=
  PyFloat.round_ndigits6
    (PyFloat.round (PyFloat.round (inject_Z (dt * 1000)) / 1000000000)).

(** ** Lines 78-83: the seasonal offset and its validation *)

(** Line 78:
    [int(args.seasonal_period.total_seconds() // step.total_seconds())
     if args.seasonal_period else 0] *)
Definition season_offset (seasonal_period : option timedelta)
    (step : timedelta) : result Z :=
  match seasonal_period with
  | Some sp =>
      if timedelta_bool sp
      then (q <- PyFloat.floordiv (total_seconds sp) (total_seconds step) ;;
            ret (PyFloat.int q))%result
      else ret 0
  | None => ret 0
  end.

(** Lines 80-83: the [if] tests the truth value of the period and the
    offset; the [elif] calls [total_seconds()] on the period, whatever
    it is. *)
Definition validate_season (seasonal_period : option timedelta)
    (step : timedelta) (offset : Z) : result unit :=
  if arg_bool seasonal_period && (offset <? 2)
  then raise (ParserError (SeasonalPeriodTooShort step seasonal_period))
  else
    match seasonal_period with
    | None => raise AttributeError
    | Some sp =>
        (r <- PyFloat.mod_ (total_seconds sp) (total_seconds step) ;;
         if PyFloat.nonzero r
         then raise (ParserError SeasonalPeriodNotMultiple)
         else ret tt)%result
    end.

(** The time grid resolver: lines 78-83 together. *)
Definition resolve_season (seasonal_period : option timedelta)
    (step : timedelta) : result Z :=
  (offset <- season_offset seasonal_period step ;;
   _ <- validate_season seasonal_period step offset ;;
   ret offset)%result.


(** A duration of whole seconds, below [2 ** 52] seconds (every
    [timedelta] is below [2 ** 47] seconds): its [total_seconds()] is
    an integer that a double holds exactly. *)
Definition whole_seconds (td : timedelta) : Prop :=
  exists n, td = seconds n /\ Z.abs n < 2 ^ 52.

(** ** The command line *)

(** The parsed arguments the script reads after [parse_args].  The
    output file is given by its name. *)
Record Args : Type := {
  order : list Z;                      (* -r p d q *)
  seasonal_order : option (list Z);    (* -R P D Q *)
  seasonal_period : option timedelta;  (* -m *)
  forecast_period : timedelta;         (* -f, one day by default *)
  output_filename : option string      (* -o *)
}.

(** Line 47: [required="-m" in sys.argv or "--seasonal_period" in sys.argv] *)
Definition seasonal_order_required (argv : list string) : bool :=
  existsb (String.eqb "-m") argv || existsb (String.eqb "--seasonal_period") argv.

(** Line 55: [required="-R" in sys.argv or "--seasonal_order" in sys.argv] *)
Definition seasonal_period_required (argv : list string) : bool :=
  existsb (String.eqb "-R") argv || existsb (String.eqb "--seasonal_order") argv.

(** ** The collaborators *)

(** The keyword arguments of one [ARIMA(...)] call.  [seasonal_order]
    is [None] when the keyword is not passed. *)
Record ARIMA_call (Series : Type) : Type := {
  endog : Series;
  call_order : list Z;
  call_seasonal_order : option (list Z)
}.
Arguments endog {Series}.
Arguments call_order {Series}.
Arguments call_seasonal_order {Series}.

(** The arguments of one [ax.fill_between(...)] call (lines 113-121),
    once they are evaluated: the index of the band, its two columns, the
    opacity, the legend label and the mask
    [confidence_interval.index >= end]. *)
Record FillBetween (value : Type) : Type := {
  fill_x : list datetime;
  fill_lower : list value;
  fill_upper : list value;
  fill_alpha : float;
  fill_label : string;
  fill_where : list bool
}.
Arguments fill_x {value}.
Arguments fill_lower {value}.
Arguments fill_upper {value}.
Arguments fill_alpha {value}.
Arguments fill_label {value}.
Arguments fill_where {value}.

(** The calls into matplotlib of lines 107-127, with their evaluated
    arguments. *)
Inductive plot_call (Series value : Type) : Type :=
| Subplots
| Plot_observed (series : Series)
| Plot_prediction (prediction : list (datetime * value))
| Axvline (x : datetime)
| Fill_between (band : FillBetween value)
| Set_xlabel (label : string)
| Set_ylabel (label : string)
| Set_major_formatter
| Legend
| Autofmt_xdate.
Arguments Subplots {Series value}.
Arguments Plot_observed {Series value}.
Arguments Plot_prediction {Series value}.
Arguments Axvline {Series value}.
Arguments Fill_between {Series value}.
Arguments Set_xlabel {Series value}.
Arguments Set_ylabel {Series value}.
Arguments Set_major_formatter {Series value}.
Arguments Legend {Series value}.
Arguments Autofmt_xdate {Series value}.

(** pandas, statsmodels and matplotlib, as the script uses them.  The
    calls of lines 99-127 may raise. *)
Class Collaborators : Type := {
  Series : Type;
  value : Type;
  ARIMAResults : Type;
  PredictionResults : Type;
  Frame : Type;
  Summary : Type;
  (** [series.interpolate(method="time")] *)
  interpolate_time : Series -> Series;
  (** [ARIMA(...).fit()] *)
  ARIMA_fit : ARIMA_call Series -> result ARIMAResults;
  (** [fit.summary()] *)
  summary : ARIMAResults -> Summary;
  (** [fit.get_prediction(start=..., end=...)] *)
  get_prediction :
    ARIMAResults -> datetime -> datetime -> result PredictionResults;
  (** [prediction_result.predicted_mean], as its [items()] *)
  predicted_mean : PredictionResults -> list (datetime * value);
  (** [prediction_result.conf_int(alpha=...)]: a data frame *)
  conf_int : PredictionResults -> float -> result Frame;
  (** [frame.index] *)
  frame_index : Frame -> list datetime;
  (** [frame[label]]: the column of that label, [KeyError] without one *)
  getitem : Frame -> string -> result (list value);
  (** a call into matplotlib *)
  matplotlib : plot_call Series value -> result unit;
  (** [str] of a forecast value *)
  str_value : value -> string
}.

(** What [rrd_fetch] returns: the resolved grid and the data sources,
    in the order the loop visits them. *)
Record Fetched `{Collaborators} : Type := {
  start : datetime;
  end_ : datetime;
  step : timedelta;
  data : list (string * Series)
}.

(** ** The script *)

Section Script.

Context `{C : Collaborators}.

(** What [print] sends to the standard output: the summary of a fit,
    or a line of the export when the output file is the standard
    output. *)
Inductive printed : Type :=
| Summary_of (s : Summary)
| Line (l : string).

(** The two streams the script writes: the standard output, and the
    file that [-o] names when it is a file of its own. *)
Record world : Type := {
  stdout : list printed;
  export : list string
}.

Definition initial_world : world := {| stdout := []; export := [] |}.

(** Computations of the script: they may write, and may raise; what
    was written before an exception stays written. *)
Definition M (A : Type) : Type := world -> result A * world.

Definition pure {A} (a : A) : M A := fun w => (ret a, w).
Definition lift {A} (r : result A) : M A := fun w => (r, w).
Definition mbind {A B} (m : M A) (k : A -> M B) : M B :=
  fun w =>
    match m w with
    | (inl e, w') => (inl e, w')
    | (inr a, w') => k a w'
    end.

(** [argparse.FileType("w")] gives [sys.stdout] for the name [-]. *)
Definition to_stdout (args : Args) : bool :=
  match output_filename args with
  | Some name => String.eqb name "-"
  | None => false
  end.

(** [print(x)] and [print(line, file=args.output_filename)] *)
Definition print_stdout (x : Summary) : M unit :=
  fun w => (ret tt, {| stdout := stdout w ++ [Summary_of x];
                       export := export w |}).
Definition print_export (args : Args) (line : string) : M unit :=
  fun w =>
    (ret tt,
     if to_stdout args
     then {| stdout := stdout w ++ [Line line]; export := export w |}
     else {| stdout := stdout w; export := export w ++ [line] |}).

(** A [for] loop over a list. *)
Fixpoint for_each {A} (l : list A) (body : A -> M unit) : M unit :=
  match l with
  | [] => pure tt
  | x :: rest => mbind (body x) (fun _ => for_each rest body)
  end.

(** [if cond: body] *)
Definition when (cond : bool) (body : M unit) : M unit :=
  if cond then body else pure tt.

(** Truth value of [args.output_filename]: an open file is truthy. *)
Definition export_requested (args : Args) : bool :=
  match output_filename args with
  | Some _ => true
  | None => false
  end.

(** [args.seasonal_order + [season_offset]]: list concatenation, a
    [TypeError] on [None]. *)
Definition list_add (l : option (list Z)) (r : list Z) : result (list Z) :=
  match l with
  | Some base => ret (base ++ r)
  | None => raise TypeError
  end.

(** Lines 91-95: which model is built. *)
Definition select_model (args : Args) (offset : Z) (series : Series)
    : result (ARIMA_call Series) :=
  if 0 <? offset
  then (so <- list_add (seasonal_order args) [offset] ;;
        ret {| endog := series; call_order := order args;
               call_seasonal_order := Some so |})%result
  else ret {| endog := series; call_order := order args;
              call_seasonal_order := None |}.

Definition fit_model (args : Args) (offset : Z) (series : Series)
    : result ARIMAResults :=
  (call <- select_model args offset series ;; ARIMA_fit call)%result.

(** Line 99 *)
Definition levels : list Z := [25; 50; 75].

(** [1 - level / 100]: a true division and a subtraction, each rounded. *)
Definition alpha (level : Z) : float :=
  PyFloat.round (1 - PyFloat.truediv level 100).

(** Lines 101-105: the point forecast and the band of each level. *)
Definition predict (fit : ARIMAResults) (start end_ : datetime)
    (forecast_period step : timedelta)
    : result (list (datetime * value) * list (Z * Frame)) :=
  (prediction_result <-
     get_prediction fit start (end_ + forecast_period - step) ;;
   let prediction := predicted_mean prediction_result in
   prediction_conf_int <-
     collect levels
       (fun level =>
          confidence_interval <- conf_int prediction_result (alpha level) ;;
          ret (level, confidence_interval)) ;;
   ret (prediction, prediction_conf_int))%result.

(** [str] of an [int] *)
Definition str_int (z : Z) : string := NilZero.string_of_int (Z.to_int z).

(** The keyword arguments of line 113-121, from the evaluated index and
    columns of a band. *)
Definition fill_between (end_ : datetime) (level : Z)
    (index : list datetime) (lower upper : list value) : FillBetween value :=
  {| fill_x := index;
     fill_lower := lower;
     fill_upper := upper;
     fill_alpha := alpha level;
     fill_label := (str_int level ++ "% confidence interval")%string;
     fill_where := map (fun t => end_ <=? t) index |}.

(** Lines 112-121: one turn of the loop over
    [prediction_conf_int.items()].  The two columns are looked up by
    their labels before the call is made. *)
Definition draw_band (end_ : datetime) (item : Z * Frame) : result unit :=
  let (level, confidence_interval) := item in
  (lower <- getitem confidence_interval "lower y" ;;
   upper <- getitem confidence_interval "upper y" ;;
   matplotlib
     (Fill_between
        (fill_between end_ level (frame_index confidence_interval)
           lower upper)))%result.

(** Line 110: where the line of the last observation is drawn. *)
Definition last_observation (f : Fetched) : datetime := end_ f - step f.

(** Lines 107-127: the figure of one source. *)
Definition draw (f : Fetched) (source : string) (series : Series)
    (prediction : list (datetime * value))
    (prediction_conf_int : list (Z * Frame)) : result unit :=
  (_ <- matplotlib Subplots ;;
   _ <- matplotlib (Plot_observed series) ;;
   _ <- matplotlib (Plot_prediction prediction) ;;
   _ <- matplotlib (Axvline (last_observation f)) ;;
   _ <- each prediction_conf_int (draw_band (end_ f)) ;;
   _ <- matplotlib (Set_xlabel "Time") ;;
   _ <- matplotlib (Set_ylabel source) ;;
   _ <- matplotlib Set_major_formatter ;;
   _ <- matplotlib Legend ;;
   matplotlib Autofmt_xdate)%result.

(** Lines 99-127: what comes between the summary of a fit and the
    export of its forecast; the point forecast when nothing raises. *)
Definition forecast (args : Args) (f : Fetched) (source : string)
    (series : Series) (fit : ARIMAResults)
    : result (list (datetime * value)) :=
  (p <- predict fit (start f) (end_ f) (forecast_period args) (step f) ;;
   _ <- draw f source series (fst p) (snd p) ;;
   ret (fst p))%result.

(** Line 131: [f"{source},{int(dt.timestamp())},{value}"] *)
Definition export_row (source : string) (item : datetime * value) : string :=
  let (dt, v) := item in
  (source ++ "," ++ str_int (PyFloat.int (timestamp dt)) ++ ","
     ++ str_value v)%string.

(** Lines 89-131: the body of the loop, for one data source. *)
Definition process_source (args : Args) (f : Fetched) (offset : Z)
    (source : string) (raw : Series) : M unit :=
  let series := interpolate_time raw in
  mbind (lift (fit_model args offset series)) (fun fit =>
  mbind (print_stdout (summary fit)) (fun _ =>
  mbind (lift (forecast args f source series fit)) (fun prediction =>
  when (export_requested args)
    (for_each prediction
       (fun item => print_export args (export_row source item)))))).

(** The loop variable [source] and [data[source]]. *)
Definition loop_body (args : Args) (f : Fetched) (offset : Z)
    : string * Series -> M unit :=
  fun '(source, raw) => process_source args f offset source raw.

(** Lines 78-131: the script after [rrd_fetch]. *)
Definition main (args : Args) (f : Fetched) : M unit :=
  mbind (lift (resolve_season (seasonal_period args) (step f))) (fun offset =>
  mbind (when (export_requested args)
           (print_export args "ds,timestamp,value"))
    (fun _ =>
  for_each (data f) (loop_body args f offset))).

(** *** What a run wrote *)

(** The lines written through [args.output_filename], in order: the
    file of its own, or the lines among the summaries on the standard
    output. *)
Definition lines_of (out : list printed) : list string :=
  flat_map (fun p => match p with Line l => [l] | Summary_of _ => [] end) out.

Definition exported (args : Args) (w : world) : list string :=
  if to_stdout args then lines_of (stdout w) else export w.

(** The summaries printed, in order. *)
Definition summaries (w : world) : list Summary :=
  flat_map (fun p => match p with Summary_of s => [s] | Line _ => [] end)
           (stdout w).

(** *** One source, as a whole *)

(** The fit and the point forecast of a source, when every step of its
    turn (lines 89-127) goes without an exception. *)
Definition turn (args : Args) (f : Fetched) (offset : Z)
    (item : string * Series)
    : result (ARIMAResults * list (datetime * value)) :=
  let series := interpolate_time (snd item) in
  (fit <- fit_model args offset series ;;
   prediction <- forecast args f (fst item) series fit ;;
   ret (fit, prediction))%result.

(** A source fits when the model is built and estimated without an
    exception; it completes when the rest of its turn raises nothing
    either. *)
Definition fits (args : Args) (offset : Z) (item : string * Series) : Prop :=
  exists fit, fit_model args offset (interpolate_time (snd item)) = ret fit.

Definition completes (args : Args) (f : Fetched) (offset : Z)
    (item : string * Series) : Prop :=
  exists fit prediction, turn args f offset item = ret (fit, prediction).

(** The rows a source adds to the export when it completes and the
    export is requested; the summary it prints when it fits. *)
Definition source_rows (args : Args) (f : Fetched) (offset : Z)
    (item : string * Series) : list string :=
  match turn args f offset item with
  | inr (_, prediction) =>
      if export_requested args
      then map (export_row (fst item)) prediction else []
  | inl _ => []
  end.

Definition source_summaries (args : Args) (offset : Z)
    (item : string * Series) : list Summary :=
  match fit_model args offset (interpolate_time (snd item)) with
  | inr fit => [summary fit]
  | inl _ => []
  end.

(** Lines 85-86: the lines written through [args.output_filename]
    before the loop, and what each stream holds of them. *)
Definition export_header (args : Args) : list string :=
  if export_requested args then ["ds,timestamp,value"%string] else [].

Definition file_header (args : Args) : list string :=
  if to_stdout args then [] else export_header args.

Definition stdout_header (args : Args) : list printed :=
  if to_stdout args then map Line (export_header args) else [].

End Script.

(** ** A small instance of the collaborators

    Series are lists of observations; a model is estimated on any
    series of at least two observations and is that series; a prediction
    holds one value at each end of the requested range; the columns of
    a band are labelled [lower y] and [upper y] for a series of two or
    three observations, and [lower named] and [upper named] for a
    longer one. *)
Module Toy.

Definition fit (call : ARIMA_call (list Z)) : result (list Z) :=
  if (2 <=? List.length (endog call))%nat then ret (endog call)
  else raise (FitError "too few observations").

Definition prediction (series : list Z) (first last_ : datetime)
    : list Z * list (datetime * Z) :=
  let n := Z.of_nat (List.length series) in
  (series, if first =? last_ then [(first, n)] else [(first, n); (last_, n)]).

Definition column_name (series : list Z) : string :=
  if (List.length series <=? 3)%nat then "y" else "named".

Definition frame : Type := string * list (datetime * (Z * Z)).

Definition column (fr : frame) (label : string) : result (list Z) :=
  if String.eqb label ("lower " ++ fst fr) then ret (map (fun r => fst (snd r)) (snd fr))
  else if String.eqb label ("upper " ++ fst fr) then ret (map (fun r => snd (snd r)) (snd fr))
  else raise (KeyError label).

#[local] Instance collaborators : Collaborators := {|
  Series := list Z;
  value := Z;
  ARIMAResults := list Z;
  PredictionResults := list Z * list (datetime * Z);
  Frame := frame;
  Summary := nat;
  interpolate_time := fun s => s;
  ARIMA_fit := fit;
  summary := fun s => List.length s;
  get_prediction := fun s first last_ => ret (prediction s first last_);
  predicted_mean := snd;
  conf_int := fun r a =>
    ret (column_name (fst r),
         map (fun '(t, v) => (t, (v - 1, v + 1))) (snd r));
  frame_index := fun fr => map fst (snd fr);
  getitem := column;
  matplotlib := fun _ => ret tt;
  str_value := fun v => NilZero.string_of_int (Z.to_int v)
|}.

(** [-r 1 0 0 -R 1 0 1 -m 1d -o out.csv] *)
Definition args : Args := {|
  order := [1; 0; 0];
  seasonal_order := Some [1; 0; 1];
  seasonal_period := Some (days 1);
  forecast_period := days 1;
  output_filename := Some "out.csv"%string
|}.

(** [-r 1 0 0 -R 1 0 1 -m 1d]: no export. *)
Definition args_display : Args := {|
  order := [1; 0; 0];
  seasonal_order := Some [1; 0; 1];
  seasonal_period := Some (days 1);
  forecast_period := days 1;
  output_filename := None
|}.

(** [-r 1 0 0 --seasonal_period=1d -o out.csv]: no seasonal order. *)
Definition args_unpaired : Args := {|
  order := [1; 0; 0];
  seasonal_order := None;
  seasonal_period := Some (days 1);
  forecast_period := days 1;
  output_filename := Some "out.csv"%string
|}.



(** Two sources on an hourly grid of two hours: the first one has a
    single observation and cannot be estimated, the second one can. *)
Definition fetched : Fetched := {|
  start := 0;
  end_ := hours 2;
  step := hours 1;
  data := [("short"%string, [5]); ("full"%string, [5; 7])]
|}.

(** The same grid with sources that complete. *)
Definition fetched_good : Fetched := {|
  start := 0;
  end_ := hours 2;
  step := hours 1;
  data := [("a"%string, [1; 2]); ("b"%string, [5; 7; 9])]
|}.

(** The same grid with a source that cannot be estimated between two
    that complete. *)
Definition fetched_mixed : Fetched := {|
  start := 0;
  end_ := hours 2;
  step := hours 1;
  data := [("a"%string, [1; 2]); ("short"%string, [5]);
           ("b"%string, [5; 7; 9])]
|}.


(** The sources of [fetched_good] on a grid whose step is zero, and on
    a daily grid. *)
Definition fetched_zero_step : Fetched := {|
  start := 0;
  end_ := hours 2;
  step := 0;
  data := [("a"%string, [1; 2]); ("b"%string, [5; 7; 9])]
|}.

Definition fetched_daily : Fetched := {|
  start := 0;
  end_ := days 2;
  step := days 1;
  data := [("a"%string, [1; 2]); ("b"%string, [5; 7; 9])]
|}.

End Toy.

(** ** Doubles: the facts the script relies on *)

Section FloatFacts.

Import PyFloat.
Local Open Scope Q_scope.

(** *** Powers of two and binades *)

Lemma pow2_pos e : 0 < pow2 e.
Proof. apply Qpower_0_lt. reflexivity. Qed.

Lemma pow2_add a b : pow2 (a + b) == pow2 a * pow2 b.
Proof. apply Qpower_plus. discriminate. Qed.

Lemma pow2_cancel a : pow2 a * pow2 (- a) == 1.
Proof. rewrite <- pow2_add, Z.add_opp_diag_r. reflexivity. Qed.

Lemma pow2_le a b : (a <= b)%Z -> pow2 a <= pow2 b.
Proof. intros H. apply Qpower_le_compat_l; [exact H | discriminate]. Qed.

Lemma pow2_lt a b : (a < b)%Z -> pow2 a < pow2 b.
Proof. intros H. apply Qpower_lt_compat_l; [exact H | reflexivity]. Qed.

Lemma pow2_lt_inv a b : pow2 a < pow2 b -> (a < b)%Z.
Proof. intros H. apply (Qpower_lt_compat_l_inv 2); [exact H | reflexivity]. Qed.

Lemma pow2_Z k : (0 <= k)%Z -> pow2 k == inject_Z (2 ^ k).
Proof. intros H. unfold pow2. now rewrite Zpower_Qpower. Qed.

Lemma pow2_log2 n : (0 < n)%Z ->
  pow2 (Z.log2 n) <= inject_Z n /\ inject_Z n < pow2 (Z.log2 n + 1).
Proof.
  intros H. destruct (Z.log2_spec n H) as [L U].
  pose proof (Z.log2_nonneg n) as Hn.
  rewrite !pow2_Z by lia. rewrite <- Zle_Qle, <- Zlt_Qlt.
  replace (Z.log2 n + 1)%Z with (Z.succ (Z.log2 n)) by lia. split; assumption.
Qed.

Lemma binade_bracket x : 0 < x ->
  let k := (Z.log2 (Qnum x) - Z.log2 (Zpos (Qden x)))%Z in
  pow2 (k - 1) <= x /\ x < pow2 (k + 1).
Proof.
  destruct x as [n d]. intros Hx k. simpl in k.
  assert (Hn : (0 < n)%Z) by (unfold Qlt in Hx; simpl in Hx; lia).
  destruct (pow2_log2 n Hn) as [Ln Un].
  destruct (pow2_log2 (Zpos d)) as [Ld Ud]; [reflexivity|].
  assert (E : (n # d) * inject_Z (Zpos d) == inject_Z n).
  { unfold Qeq, Qmult, inject_Z. simpl. rewrite Pos.mul_1_r. ring. }
  pose proof (pow2_pos (Z.log2 (Zpos d))) as P1.
  pose proof (pow2_pos (Z.log2 (Zpos d) + 1)) as P2.
  split.
  - assert (A : pow2 (k - 1) * pow2 (Z.log2 (Zpos d) + 1) == pow2 (Z.log2 n)).
    { rewrite <- pow2_add. subst k. apply Qpower_comp; [reflexivity|]. simpl. lia. }
    apply (Qmult_le_r _ _ _ P2). rewrite A.
    apply Qle_trans with (1 := Ln). rewrite <- E.
    apply Qmult_le_l; [exact Hx | apply Qlt_le_weak; exact Ud].
  - assert (A : pow2 (k + 1) * pow2 (Z.log2 (Zpos d)) == pow2 (Z.log2 n + 1)).
    { rewrite <- pow2_add. subst k. apply Qpower_comp; [reflexivity|]. simpl. lia. }
    apply (Qmult_lt_r _ _ _ P1). rewrite A.
    apply Qle_lt_trans with (2 := Un). rewrite <- E.
    apply Qmult_le_l; [exact Hx | exact Ld].
Qed.

Lemma binade_spec x : 0 < x ->
  pow2 (binade x) <= x /\ x < pow2 (binade x + 1).
Proof.
  intros Hx. destruct (binade_bracket x Hx) as [L U]. unfold binade.
  destruct (Qle_bool (pow2 _) x) eqn:E.
  - apply Qle_bool_iff in E. split; assumption.
  - split; [exact L|].
    replace (_ - 1 + 1)%Z with (Z.log2 (Qnum x) - Z.log2 (Zpos (Qden x)))%Z by ring.
    apply Qnot_le_lt. intros H. apply Qle_bool_iff in H. congruence.
Qed.

Lemma binade_unique x b : pow2 b <= x -> x < pow2 (b + 1) -> binade x = b.
Proof.
  intros L U.
  assert (Hx : 0 < x) by (apply Qlt_le_trans with (2 := L), pow2_pos).
  destruct (binade_spec x Hx) as [L' U'].
  assert (binade x < b + 1)%Z
    by (apply pow2_lt_inv, Qle_lt_trans with (1 := L'), U).
  assert (b < binade x + 1)%Z
    by (apply pow2_lt_inv, Qle_lt_trans with (1 := L), U').
  lia.
Qed.

Lemma binade_comp x y : 0 < x -> x == y -> binade x = binade y.
Proof.
  intros Hx E. destruct (binade_spec x Hx) as [L U].
  symmetry. apply binade_unique; rewrite <- E; assumption.
Qed.

Lemma binade_mono x y : 0 < x -> x <= y -> (binade x <= binade y)%Z.
Proof.
  intros Hx H.
  destruct (binade_spec x Hx) as [L _].
  destruct (binade_spec y) as [_ U]; [now apply Qlt_le_trans with (1 := Hx)|].
  assert (binade x < binade y + 1)%Z; [|lia].
  apply pow2_lt_inv, Qle_lt_trans with (1 := L), Qle_lt_trans with (1 := H), U.
Qed.

(** *** The nearest integer *)

Lemma nearest_even_comp x y : x == y -> nearest_even x = nearest_even y.
Proof.
  intros E. unfold nearest_even. rewrite (Qfloor_comp _ _ E).
  replace (x - inject_Z (Qfloor y) ?= 1 # 2) with (y - inject_Z (Qfloor y) ?= 1 # 2);
    [reflexivity|].
  apply Qcompare_comp; [rewrite E|]; reflexivity.
Qed.

Lemma nearest_even_bounds x :
  (Qfloor x <= nearest_even x <= Qfloor x + 1)%Z.
Proof.
  unfold nearest_even.
  destruct (x - inject_Z (Qfloor x) ?= 1 # 2); [destruct (Z.even _)| |]; lia.
Qed.

Lemma nearest_even_Z z : nearest_even (inject_Z z) = z.
Proof.
  unfold nearest_even. rewrite Qfloor_Z.
  assert (H : inject_Z z - inject_Z z < 1 # 2).
  { setoid_replace (inject_Z z - inject_Z z) with 0 by ring. reflexivity. }
  destruct (Qcompare_spec (inject_Z z - inject_Z z) (1 # 2)); [lra | reflexivity | lra].
Qed.

Lemma nearest_even_mono x y : x <= y -> (nearest_even x <= nearest_even y)%Z.
Proof.
  intros H. pose proof (Qfloor_resp_le _ _ H) as Hf.
  pose proof (nearest_even_bounds x) as Bx.
  pose proof (nearest_even_bounds y) as By.
  destruct (Z.eq_dec (Qfloor x) (Qfloor y)) as [E|NE]; [|lia].
  unfold nearest_even. rewrite <- E.
  destruct (Qcompare_spec (x - inject_Z (Qfloor x)) (1 # 2));
    destruct (Qcompare_spec (y - inject_Z (Qfloor x)) (1 # 2));
    try destruct (Z.even (Qfloor x)); try lia; exfalso; lra.
Qed.

Lemma nearest_even_ge x z : inject_Z z <= x -> (z <= nearest_even x)%Z.
Proof.
  intros H. rewrite <- (nearest_even_Z z). now apply nearest_even_mono.
Qed.

Lemma nearest_even_le x z : x <= inject_Z z -> (nearest_even x <= z)%Z.
Proof.
  intros H. rewrite <- (nearest_even_Z z). now apply nearest_even_mono.
Qed.

(** *** Rounding to a double: range, order, exact values *)

Lemma scaled_range x : 0 < x ->
  pow2 52 <= x * pow2 (- (binade x - 52))
  /\ x * pow2 (- (binade x - 52)) < pow2 53.
Proof.
  intros Hx. destruct (binade_spec x Hx) as [L U].
  pose proof (pow2_pos (- (binade x - 52))) as P.
  split.
  - setoid_replace (pow2 52) with (pow2 (binade x) * pow2 (- (binade x - 52))).
    + apply Qmult_le_r; assumption.
    + rewrite <- pow2_add. apply Qpower_comp; [reflexivity | lia].
  - setoid_replace (pow2 53) with (pow2 (binade x + 1) * pow2 (- (binade x - 52))).
    + apply Qmult_lt_r; assumption.
    + rewrite <- pow2_add. apply Qpower_comp; [reflexivity | lia].
Qed.

Lemma round_pos_range x : 0 < x ->
  pow2 (binade x) <= round_pos x /\ round_pos x <= pow2 (binade x + 1).
Proof.
  intros Hx. destruct (scaled_range x Hx) as [L U]. unfold round_pos.
  set (e := (binade x - 52)%Z) in *.
  pose proof (pow2_pos e) as P.
  rewrite (pow2_Z 52) in L by lia. rewrite (pow2_Z 53) in U by lia.
  apply nearest_even_ge in L. apply Qlt_le_weak, nearest_even_le in U.
  rewrite Zle_Qle in L, U.
  rewrite <- (pow2_Z 52) in L by lia. rewrite <- (pow2_Z 53) in U by lia.
  split.
  - setoid_replace (pow2 (binade x)) with (pow2 52 * pow2 e).
    + apply Qmult_le_r; assumption.
    + rewrite <- pow2_add. apply Qpower_comp; [reflexivity | subst e; lia].
  - setoid_replace (pow2 (binade x + 1)) with (pow2 53 * pow2 e).
    + apply Qmult_le_r; assumption.
    + rewrite <- pow2_add. apply Qpower_comp; [reflexivity | subst e; lia].
Qed.

Lemma round_pos_comp x y : 0 < x -> x == y -> round_pos x == round_pos y.
Proof.
  intros Hx E. unfold round_pos. rewrite <- (binade_comp x y Hx E).
  rewrite (nearest_even_comp (x * _) (y * pow2 (- (binade x - 52)))).
  - reflexivity.
  - apply Qmult_comp; [exact E | reflexivity].
Qed.

Lemma round_pos_mono x y : 0 < x -> x <= y -> round_pos x <= round_pos y.
Proof.
  intros Hx H.
  assert (Hy : 0 < y) by now apply Qlt_le_trans with (1 := Hx).
  pose proof (binade_mono x y Hx H) as Hb.
  destruct (Z.eq_dec (binade x) (binade y)) as [E|NE].
  - unfold round_pos. rewrite <- E.
    apply Qmult_le_r; [apply pow2_pos|].
    rewrite <- Zle_Qle. apply nearest_even_mono.
    apply Qmult_le_r; [apply pow2_pos | exact H].
  - destruct (round_pos_range x Hx) as [_ U].
    destruct (round_pos_range y Hy) as [L _].
    apply Qle_trans with (1 := U), Qle_trans with (2 := L).
    apply pow2_le. lia.
Qed.

Lemma round_pos_positive x : 0 < x -> 0 < round_pos x.
Proof.
  intros Hx. destruct (round_pos_range x Hx) as [L _].
  apply Qlt_le_trans with (2 := L), pow2_pos.
Qed.



Lemma round_comp x y : x == y -> round x == round y.
Proof.
  intros E. unfold round.
  destruct (Qcompare_spec x 0); destruct (Qcompare_spec y 0);
    try (exfalso; lra).
  - reflexivity.
  - rewrite (round_pos_comp (- x) (- y)); [reflexivity | lra | now rewrite E].
  - apply round_pos_comp; assumption.
Qed.

Lemma round_mono x y : x <= y -> round x <= round y.
Proof.
  intros H. unfold round.
  destruct (Qcompare_spec x 0) as [Cx|Cx|Cx];
    destruct (Qcompare_spec y 0) as [Cy|Cy|Cy]; try (exfalso; lra).
  - lra.
  - pose proof (round_pos_positive y Cy). lra.
  - pose proof (round_pos_positive (- x)). lra.
  - assert (round_pos (- y) <= round_pos (- x)) by (apply round_pos_mono; lra).
    lra.
  - pose proof (round_pos_positive (- x)). pose proof (round_pos_positive y Cy).
    lra.
  - now apply round_pos_mono.
Qed.

Lemma round_opp x : round (- x) == - round x.
Proof.
  unfold round.
  destruct (Qcompare_spec x 0) as [Cx|Cx|Cx];
    destruct (Qcompare_spec (- x) 0) as [Cy|Cy|Cy]; try (exfalso; lra).
  - reflexivity.
  - ring.
  - rewrite (round_pos_comp (- - x) x); [reflexivity | lra | ring].
Qed.

Lemma round_pos_exact x m k :
  (0 < m < 2 ^ 53)%Z -> x == inject_Z m * pow2 k -> round_pos x == x.
Proof.
  intros [Hm Hb] E.
  destruct (pow2_log2 m Hm) as [L U].
  assert (Hl : (Z.log2 m < 53)%Z) by (apply Z.log2_lt_pow2; lia).
  pose proof (Z.log2_nonneg m) as Hl0.
  pose proof (pow2_pos k) as Pk.
  assert (Hx : 0 < x).
  { rewrite E. apply Qmult_lt_0_compat; [|exact Pk].
    replace 0 with (inject_Z 0) by reflexivity. now rewrite <- Zlt_Qlt. }
  assert (B : binade x = (Z.log2 m + k)%Z).
  { apply binade_unique; rewrite E.
    - rewrite pow2_add. apply Qmult_le_r; assumption.
    - replace (Z.log2 m + k + 1)%Z with ((Z.log2 m + 1) + k)%Z by ring.
      rewrite pow2_add. apply Qmult_lt_r; assumption. }
  unfold round_pos. rewrite B.
  rewrite (nearest_even_comp _ (inject_Z (m * 2 ^ (52 - Z.log2 m)))).
  - rewrite nearest_even_Z, inject_Z_mult, <- pow2_Z by lia.
    rewrite E, <- !Qmult_assoc, <- pow2_add.
    apply Qmult_comp; [reflexivity|].
    apply Qpower_comp; [reflexivity | lia].
  - rewrite inject_Z_mult, <- pow2_Z by lia.
    rewrite E, <- !Qmult_assoc, <- pow2_add.
    apply Qmult_comp; [reflexivity|].
    apply Qpower_comp; [reflexivity | lia].
Qed.

Lemma round_exact x m k :
  (Z.abs m < 2 ^ 53)%Z -> x == inject_Z m * pow2 k -> round x == x.
Proof.
  intros Hm E. pose proof (pow2_pos k) as Pk.
  assert (S : forall z, (0 < z)%Z -> 0 < inject_Z z * pow2 k).
  { intros z Hz. apply Qmult_lt_0_compat; [|exact Pk].
    replace 0 with (inject_Z 0) by reflexivity. now rewrite <- Zlt_Qlt. }
  unfold round.
  destruct (Z.lt_trichotomy m 0) as [Neg|[Zero|Pos]].
  - assert (Hx : 0 < - x).
    { setoid_replace (- x) with (inject_Z (- m) * pow2 k)
        by (rewrite E, inject_Z_opp; ring).
      apply S. lia. }
    destruct (Qcompare_spec x 0); try (exfalso; lra).
    rewrite (round_pos_exact (- x) (- m) k); [ring | lia |].
    rewrite E, inject_Z_opp. ring.
  - subst m. assert (Hx : x == 0) by (rewrite E; ring).
    destruct (Qcompare_spec x 0); try (exfalso; lra). now rewrite Hx.
  - assert (Hx : 0 < x) by (rewrite E; now apply S).
    destruct (Qcompare_spec x 0); try (exfalso; lra).
    apply (round_pos_exact x m k); [lia | exact E].
Qed.

Lemma round_Z x z : (Z.abs z < 2 ^ 53)%Z -> x == inject_Z z -> round x == inject_Z z.
Proof.
  intros Hz E. rewrite (round_exact x z 0 Hz); [exact E|].
  rewrite E. unfold pow2. simpl. ring.
Qed.

(** *** [int], [fmod], [//] and [%] on integers *)

Lemma int_alt x : int x = if Qle_bool 0 x then Qfloor x else Qceiling x.
Proof.
  destruct x as [n d]. unfold int, Qle_bool, Qceiling, Qfloor, Qopp. simpl.
  rewrite Z.mul_1_r.
  destruct (Z.leb_spec 0 n) as [H|H].
  - apply Z.quot_div_nonneg; lia.
  - rewrite <- (Z.opp_involutive n) at 1.
    rewrite Z.quot_opp_l by discriminate.
    f_equal. apply Z.quot_div_nonneg; lia.
Qed.

Lemma Qle_bool_comp x y : x == y -> Qle_bool 0 x = Qle_bool 0 y.
Proof.
  intros E. destruct (Qle_bool 0 x) eqn:A; destruct (Qle_bool 0 y) eqn:B;
    try reflexivity; exfalso.
  - apply Qle_bool_iff in A. rewrite E in A. apply Qle_bool_iff in A. congruence.
  - apply Qle_bool_iff in B. rewrite <- E in B. apply Qle_bool_iff in B. congruence.
Qed.

Lemma int_comp x y : x == y -> int x = int y.
Proof.
  intros E. rewrite !int_alt, (Qle_bool_comp x y E).
  now rewrite (Qfloor_comp _ _ E), (Qceiling_comp _ _ E).
Qed.

Lemma int_Z x z : x == inject_Z z -> int x = z.
Proof.
  intros E. rewrite (int_comp _ _ E). unfold int, inject_Z. simpl.
  apply Z.quot_1_r.
Qed.

Lemma int_mono x y : x <= y -> (int x <= int y)%Z.
Proof.
  intros H. rewrite !int_alt.
  pose proof (Qfloor_resp_le _ _ H). pose proof (Qceiling_resp_le _ _ H).
  pose proof (Qfloor_le x). pose proof (Qle_ceiling y).
  destruct (Qle_bool 0 x) eqn:A; destruct (Qle_bool 0 y) eqn:B; try assumption.
  - apply Qle_bool_iff in A. exfalso.
    assert (0 <= y) by lra. apply Qle_bool_iff in H4. congruence.
  - assert (Hx : x < 0).
    { apply Qnot_le_lt. intros C. apply Qle_bool_iff in C. congruence. }
    apply Qle_bool_iff in B.
    assert (Qceiling x <= 0)%Z.
    { change 0%Z with (Qceiling 0). apply Qceiling_resp_le. lra. }
    assert (0 <= Qfloor y)%Z.
    { change 0%Z with (Qfloor 0). now apply Qfloor_resp_le. }
    lia.
Qed.

(** Quotient and remainder of integers, truncated and floored. *)

Lemma quot_rem_floor (a b : Z) : b <> 0%Z ->
  let q := Z.quot a b in let r := Z.rem a b in
  if negb (r =? 0)%Z && xorb (b <? 0)%Z (r <? 0)%Z
  then (a / b = q - 1 /\ a mod b = r + b)%Z
  else (a / b = q /\ a mod b = r)%Z.
Proof.
  intros Hb q r.
  pose proof (Z.quot_rem' a b) as E. fold q r in E.
  pose proof (Z.rem_bound_abs a b Hb) as Bd. fold r in Bd.
  pose proof (Z.div_mod a b Hb) as D.
  pose proof (Z.mod_bound_or a b Hb) as M.
  destruct (Z.eqb_spec r 0) as [R0|R0]; simpl.
  - apply (Z.div_mod_unique b); [exact M | lia | lia].
  - destruct (Z.ltb_spec b 0); destruct (Z.ltb_spec r 0); simpl;
      apply (Z.div_mod_unique b); try exact M; lia.
Qed.

Lemma Qeq_bool_Z x z : x == inject_Z z -> Qeq_bool x 0 = (z =? 0)%Z.
Proof.
  intros E. destruct (Z.eqb_spec z 0) as [->|N].
  - now apply Qeq_bool_iff.
  - apply not_true_is_false. intros C. apply Qeq_bool_iff in C.
    apply N. rewrite E in C. unfold Qeq in C. simpl in C. lia.
Qed.

Lemma negative_Z x z : x == inject_Z z -> negative x = (z <? 0)%Z.
Proof.
  intros E. unfold negative. rewrite (Qle_bool_comp x _ E).
  unfold Qle_bool, inject_Z. simpl. rewrite Z.mul_1_r.
  destruct (Z.leb_spec 0 z); destruct (Z.ltb_spec z 0); try reflexivity; lia.
Qed.

Lemma trunc_quotient x y a b : x == inject_Z a -> y == inject_Z b -> b <> 0%Z ->
  int (x / y) = Z.quot a b.
Proof.
  intros Ex Ey Hb.
  assert (E : x / y == inject_Z a / inject_Z b) by now rewrite Ex, Ey.
  rewrite (int_comp _ _ E).
  destruct b as [|p|p]; [contradiction| |].
  - rewrite <- (int_comp _ _ (Qmake_Qdiv a p)). reflexivity.
  - assert (E' : inject_Z a / inject_Z (Zneg p) == (- a) # p).
    { rewrite (Qmake_Qdiv (- a) p), inject_Z_opp.
      change (inject_Z (Zneg p)) with (- inject_Z (Zpos p)).
      field. intros C. discriminate C. }
    rewrite (int_comp _ _ E'). unfold int. simpl.
    change (Zneg p) with (- Zpos p)%Z.
    rewrite Z.quot_opp_l, Z.quot_opp_r by discriminate. reflexivity.
Qed.

Lemma fmod_Z x y a b : x == inject_Z a -> y == inject_Z b -> b <> 0%Z ->
  fmod x y == inject_Z (Z.rem a b).
Proof.
  intros Ex Ey Hb. unfold fmod.
  change (Z.quot (Qnum (x / y)) (Zpos (Qden (x / y)))) with (int (x / y)).
  rewrite (trunc_quotient x y a b Ex Ey Hb), Ex, Ey.
  unfold Qminus. rewrite <- inject_Z_mult, <- inject_Z_opp, <- inject_Z_plus.
  pose proof (Z.quot_rem' a b) as H.
  replace (a + - (b * Z.quot a b))%Z with (Z.rem a b) by lia. reflexivity.
Qed.

#[local] Instance round_proper : Proper (Qeq ==> Qeq) round.
Proof. intros x y E. now apply round_comp. Qed.

Lemma round_inject x z :
  (Z.abs z < 2 ^ 53)%Z -> x == inject_Z z -> round x == inject_Z z.
Proof. apply round_Z. Qed.

Lemma quot_rem_small (a b : Z) : b <> 0%Z ->
  (Z.abs (Z.quot a b) <= Z.abs a /\ Z.abs (a - Z.rem a b) <= Z.abs a)%Z.
Proof.
  intros Hb.
  pose proof (Z.quot_rem' a b) as E.
  pose proof (Z.rem_bound_abs a b Hb) as Bd.
  pose proof (Z.rem_sign_mul a b Hb) as Sg.
  pose proof (Z.quot_abs a b Hb) as Qa.
  assert (Hq : (Z.quot (Z.abs a) (Z.abs b) <= Z.abs a)%Z).
  { rewrite Z.quot_div_nonneg by lia. apply Z.div_le_upper_bound; nia. }
  split; [lia|].
  replace (a - Z.rem a b)%Z with (b * Z.quot a b)%Z by lia.
  rewrite Z.abs_mul.
  pose proof (Z.mul_quot_le (Z.abs a) (Z.abs b)) as M.
  specialize (M ltac:(lia) ltac:(lia)). lia.
Qed.

Lemma mod_Z x y a b :
  x == inject_Z a -> y == inject_Z b -> b <> 0%Z -> (Z.abs b < 2 ^ 53)%Z ->
  exists r, mod_ x y = ret r /\ r == inject_Z (a mod b).
Proof.
  intros Ex Ey Hb Bb. unfold mod_.
  rewrite (Qeq_bool_Z y b Ey). apply Z.eqb_neq in Hb as Hb'. rewrite Hb'.
  pose proof (fmod_Z x y a b Ex Ey Hb) as Em.
  rewrite (Qeq_bool_Z _ _ Em), (negative_Z y b Ey), (negative_Z _ _ Em).
  pose proof (quot_rem_floor a b Hb) as F. cbv zeta in F.
  pose proof (Z.mod_bound_or a b Hb) as M.
  destruct (negb (Z.rem a b =? 0)%Z && xorb (b <? 0)%Z (Z.rem a b <? 0)%Z);
    destruct F as [_ F]; rewrite F; eexists; split; try reflexivity.
  - apply round_inject; [lia|]. now rewrite Em, Ey, inject_Z_plus.
  - exact Em.
Qed.

Lemma floordiv_Z x y a b :
  x == inject_Z a -> y == inject_Z b -> b <> 0%Z -> (Z.abs a < 2 ^ 52)%Z ->
  exists q, floordiv x y = ret q /\ q == inject_Z (a / b).
Proof.
  intros Ex Ey Hb Ba. unfold floordiv.
  rewrite (Qeq_bool_Z y b Ey). apply Z.eqb_neq in Hb as Hb'. rewrite Hb'.
  pose proof (fmod_Z x y a b Ex Ey Hb) as Em.
  rewrite (Qeq_bool_Z _ _ Em), (negative_Z y b Ey), (negative_Z _ _ Em).
  destruct (quot_rem_small a b Hb) as [Sq Sr].
  pose proof (Z.quot_rem' a b) as QR.
  assert (E1 : round (x - fmod x y) == inject_Z (b * Z.quot a b)).
  { apply round_inject; [lia|].
    rewrite Em, Ex. unfold Qminus. rewrite <- inject_Z_opp, <- inject_Z_plus.
    replace (a + - Z.rem a b)%Z with (b * Z.quot a b)%Z by lia. reflexivity. }
  assert (E2 : round (round (x - fmod x y) / y) == inject_Z (Z.quot a b)).
  { apply round_inject; [lia|].
    rewrite E1, Ey, inject_Z_mult. field.
    intros C. apply Hb. unfold Qeq in C. simpl in C. lia. }
  pose proof (quot_rem_floor a b Hb) as F. cbv zeta in F.
  set (div := if negb (Z.rem a b =? 0)%Z && xorb (b <? 0)%Z (Z.rem a b <? 0)%Z
              then round (round (round (x - fmod x y) / y) - 1)
              else round (round (x - fmod x y) / y)).
  assert (E3 : div == inject_Z (a / b)).
  { subst div.
    destruct (negb (Z.rem a b =? 0)%Z && xorb (b <? 0)%Z (Z.rem a b <? 0)%Z);
      destruct F as [F _]; rewrite F.
    - apply round_inject; [lia|]. rewrite E2. unfold Qminus.
      change (- (1))%Q with (inject_Z (- 1)). now rewrite <- inject_Z_plus.
    - exact E2. }
  rewrite (Qeq_bool_Z _ _ E3).
  destruct (Z.eqb_spec (a / b) 0) as [Z0|NZ].
  - exists 0. split; [reflexivity|]. now rewrite Z0.
  - assert (Ef : Qfloor div = (a / b)%Z)
      by now rewrite (Qfloor_comp _ _ E3), Qfloor_Z.
    rewrite Ef.
    assert (E4 : round (div - inject_Z (a / b)) == 0).
    { transitivity (inject_Z 0); [|reflexivity].
      apply round_inject; [reflexivity|]. rewrite E3. ring. }
    assert (L : Qle_bool (round (div - inject_Z (a / b))) (1 # 2) = true).
    { apply Qle_bool_iff. rewrite E4. discriminate. }
    rewrite L. exists (inject_Z (a / b)). split; reflexivity.
Qed.

Lemma total_seconds_Z n :
  (Z.abs n < 2 ^ 53)%Z -> total_seconds (seconds n) == inject_Z n.
Proof.
  intros Hn. unfold total_seconds, truediv, seconds.
  apply round_inject; [exact Hn|].
  rewrite inject_Z_mult. field. discriminate.
Qed.

End FloatFacts.

(** ** Timestamps *)

Section TimestampFacts.

Local Open Scope Q_scope.

Lemma scale_mono (x y c : Q) : 0 < c -> x <= y -> x * c <= y * c.
Proof. intros Hc H. now apply Qmult_le_r. Qed.

Lemma round_ndigits6_mono x y :
  x <= y -> PyFloat.round_ndigits6 x <= PyFloat.round_ndigits6 y.
Proof.
  intros H. unfold PyFloat.round_ndigits6. apply round_mono.
  unfold Qdiv. apply scale_mono; [reflexivity|].
  rewrite <- Zle_Qle. apply nearest_even_mono.
  apply scale_mono; [reflexivity | exact H].
Qed.

Lemma timestamp_mono (dt1 dt2 : datetime) :
  (dt1 <= dt2)%Z -> timestamp dt1 <= timestamp dt2.
Proof.
  intros H. unfold timestamp. apply round_ndigits6_mono, round_mono.
  unfold Qdiv. apply scale_mono; [reflexivity|].
  apply round_mono. rewrite <- Zle_Qle. lia.
Qed.

(** The instants on a whole second that a double of nanoseconds holds
    exactly: up to [2 ** 53 / 5 ** 9] seconds from the epoch, about 146
    years. *)
Lemma timestamp_whole_second (n : Z) :
  (Z.abs n < 4611686018)%Z -> timestamp (seconds n) == inject_Z n.
Proof.
  intros Hn. unfold timestamp, PyFloat.round_ndigits6.
  assert (E1 : PyFloat.round (inject_Z (seconds n * 1000))
               == inject_Z (seconds n * 1000)).
  { apply (round_exact _ (n * 1953125) 9); [lia|].
    unfold seconds, microseconds_per_second, PyFloat.pow2.
    rewrite !inject_Z_mult. simpl. field. }
  assert (E2 : PyFloat.round
                 (PyFloat.round (inject_Z (seconds n * 1000)) / 1000000000)
               == inject_Z n).
  { apply round_inject; [lia|]. rewrite E1.
    unfold seconds, microseconds_per_second. rewrite !inject_Z_mult. field. }
  apply round_inject; [lia|].
  rewrite (nearest_even_comp _ (inject_Z (n * 1000000))).
  - rewrite nearest_even_Z, inject_Z_mult. field.
  - rewrite E2, inject_Z_mult. reflexivity.
Qed.

End TimestampFacts.

(** ** The resolver in integers *)

Lemma total_seconds_zero : total_seconds 0 = 0%Q.
Proof. reflexivity. Qed.



Section WholeSeconds.

Variables (sp step : timedelta).
Hypothesis sp_whole : whole_seconds sp.
Hypothesis step_whole : whole_seconds step.
Hypothesis step_nonzero : step <> 0.

Lemma whole_quotient :
  exists n s, sp = seconds n /\ step = seconds s /\ s <> 0
              /\ Z.abs n < 2 ^ 52 /\ Z.abs s < 2 ^ 52
              /\ sp / step = n / s
              /\ (sp mod step =? 0) = (n mod s =? 0).
Proof.
  destruct sp_whole as (n & -> & Hn). destruct step_whole as (s & Es & Hs).
  exists n, s. subst step.
  assert (s <> 0) by (intros ->; now apply step_nonzero).
  unfold seconds. repeat split; try assumption.
  - apply Z.div_mul_cancel_r; [assumption | discriminate].
  - rewrite Z.mul_mod_distr_r by (assumption || discriminate).
    destruct (Z.eqb_spec (n mod s) 0) as [->|N]; [reflexivity|].
    apply Z.eqb_neq. lia.
Qed.

Lemma season_offset_whole :
  season_offset (Some sp) step = ret (sp / step).
Proof.
  destruct whole_quotient as (n & s & -> & -> & Hs & Bn & Bs & Eq & _).
  rewrite Eq. unfold season_offset, timedelta_bool.
  destruct (Z.eqb_spec (seconds n) 0) as [E|E]; simpl.
  - assert (n = 0) by (unfold seconds in E; lia). subst n.
    now rewrite Z.div_0_l.
  - destruct (floordiv_Z (total_seconds (seconds n)) (total_seconds (seconds s))
                n s) as (q & -> & Hq);
      try (apply total_seconds_Z; lia); try assumption.
    simpl. now rewrite (int_Z q (n / s) Hq).
Qed.

Lemma mod_whole :
  exists r,
    PyFloat.mod_ (total_seconds sp) (total_seconds step) = ret r
    /\ PyFloat.nonzero r = negb (sp mod step =? 0).
Proof.
  destruct whole_quotient as (n & s & -> & -> & Hs & Bn & Bs & _ & Em).
  rewrite Em.
  destruct (mod_Z (total_seconds (seconds n)) (total_seconds (seconds s))
              n s) as (r & Hr & Er);
    try (apply total_seconds_Z; lia); try assumption; try lia.
  exists r. split; [exact Hr|].
  unfold PyFloat.nonzero. now rewrite (Qeq_bool_Z r _ Er).
Qed.

(** Lines 78-83 for a supplied period, on durations of whole seconds
    with a step that is not zero. *)
Lemma resolve_season_whole :
  resolve_season (Some sp) step =
  if negb (sp =? 0) && (sp / step <? 2)
  then raise (ParserError (SeasonalPeriodTooShort step (Some sp)))
  else if negb (sp mod step =? 0)
       then raise (ParserError SeasonalPeriodNotMultiple)
       else ret (sp / step).
Proof.
  unfold resolve_season. rewrite season_offset_whole. simpl.
  unfold validate_season, arg_bool, timedelta_bool.
  destruct (negb (sp =? 0) && (sp / step <? 2)); [reflexivity|].
  destruct mod_whole as (r & Hr & Hn). rewrite Hr. simpl. rewrite Hn.
  destruct (negb (sp mod step =? 0)); reflexivity.
Qed.

End WholeSeconds.

(** A supplied period on a grid whose step is zero divides by zero, in
    line 78 or in line 82. *)
Lemma resolve_season_zero_step (sp : timedelta) :
  resolve_season (Some sp) 0 = raise ZeroDivisionError.
Proof.
  unfold resolve_season, season_offset, timedelta_bool.
  destruct (Z.eqb_spec sp 0) as [E|E].
  - subst sp. reflexivity.
  - cbn [negb]. unfold PyFloat.floordiv. rewrite total_seconds_zero.
    reflexivity.
Qed.

(** A successful validation, on any durations: the period was supplied,
    and the offset is zero for the zero period and at least two
    otherwise. *)
Lemma validated_offset_shape (seasonal_period : option timedelta)
    (step : timedelta) (offset : Z) :
  resolve_season seasonal_period step = ret offset ->
  exists sp, seasonal_period = Some sp
             /\ season_offset (Some sp) step = ret offset
             /\ ((sp = 0 /\ offset = 0) \/ (sp <> 0 /\ 2 <= offset)).
Proof.
  destruct seasonal_period as [sp|]; [|discriminate].
  intros H. exists sp. split; [reflexivity|].
  unfold resolve_season in H.
  destruct (season_offset (Some sp) step) as [e|o] eqn:So; [discriminate|].
  simpl in H.
  destruct (validate_season (Some sp) step o) as [e|[]] eqn:V; [discriminate|].
  simpl in H. injection H as <-. split; [reflexivity|].
  unfold validate_season, arg_bool, timedelta_bool in V.
  destruct (Z.eqb_spec sp 0) as [E|E].
  - left. split; [exact E|]. subst sp. simpl in So. now injection So.
  - right. split; [exact E|]. simpl in V.
    destruct (Z.ltb_spec o 2); [discriminate | assumption].
Qed.

(** ** The resolver: claims *)

(** C1.  Without a seasonal period the resolver does not return 0: line
    78 gives offset 0, the test of line 80 is false, and the [elif] of
    line 82 calls [total_seconds()] on [None].  For every step the
    outcome is an [AttributeError]. *)
Theorem resolve_season_without_period (step : timedelta) :
  season_offset None step = ret 0
  /\ resolve_season None step = raise AttributeError.
Proof.
  split; reflexivity.
Qed.

(** C3.  A seasonal period of zero length on a grid of one second: the
    floor quotient is 0, which is less than 2, and yet no error is
    raised.  The period is falsy, so line 78 gives offset 0 and the test
    of line 80 is false; zero is a multiple of the step, so line 82
    passes as well. *)
Theorem zero_period_not_rejected :
  seconds 0 / seconds 1 < 2
  /\ season_offset (Some (seconds 0)) (seconds 1) = ret 0
  /\ validate_season (Some (seconds 0)) (seconds 1) 0 = ret tt
  /\ resolve_season (Some (seconds 0)) (seconds 1) = ret 0.
Proof.
  repeat split.
Qed.




(** ** Further properties of the resolver *)

(** X1.  On durations of whole seconds, an exact multiple of the step,
    at least twice the step, is accepted and gives the quotient. *)
Theorem exact_multiple_accepted (sp step : timedelta) :
  whole_seconds sp -> whole_seconds step ->
  step <> 0 -> sp mod step = 0 -> 2 <= sp / step ->
  resolve_season (Some sp) step = ret (sp / step).
Proof.
  intros Wp Ws Hs Hm Hq. rewrite resolve_season_whole by assumption.
  replace (sp / step <? 2) with false by (symmetry; apply Z.ltb_ge; lia).
  rewrite andb_false_r, Hm. reflexivity.
Qed.

Lemma exact_multiple_accepted_witness :
  resolve_season (Some (hours 24)) (hours 1) = ret (hours 24 / hours 1).
Proof.
  apply (exact_multiple_accepted (hours 24) (hours 1)).
  - exists 86400. split; reflexivity.
  - exists 3600. split; reflexivity.
  - discriminate.
  - reflexivity.
  - discriminate.
Defined.

(** X2.  On durations of whole seconds with a positive step, every
    period other than zero that is shorter than two steps, a negative
    one included, is rejected with the message of line 81. *)
Theorem period_below_two_steps_rejected (sp step : timedelta) :
  whole_seconds sp -> whole_seconds step ->
  0 < step -> sp <> 0 -> sp < 2 * step ->
  resolve_season (Some sp) step
  = raise (ParserError (SeasonalPeriodTooShort step (Some sp))).
Proof.
  intros Wp Ws Hs Hz Hlt. rewrite resolve_season_whole by (assumption || lia).
  replace (sp =? 0) with false by (symmetry; now apply Z.eqb_neq).
  replace (sp / step <? 2) with true; [reflexivity|].
  symmetry. apply Z.ltb_lt, Z.div_lt_upper_bound; lia.
Qed.

Lemma period_below_two_steps_rejected_witness :
  resolve_season (Some (seconds (-5))) (seconds 1)
  = raise (ParserError (SeasonalPeriodTooShort (seconds 1) (Some (seconds (-5))))).
Proof.
  apply (period_below_two_steps_rejected (seconds (-5)) (seconds 1)).
  - exists (-5). split; reflexivity.
  - exists 1. split; reflexivity.
  - reflexivity.
  - discriminate.
  - reflexivity.
Defined.

(** X3.  On durations of whole seconds, a period that is not a multiple
    of the step is rejected by [parser.error], with one message or the
    other. *)
Theorem not_multiple_rejected (sp step : timedelta) :
  whole_seconds sp -> whole_seconds step ->
  step <> 0 -> sp mod step <> 0 ->
  exists msg, resolve_season (Some sp) step = raise (ParserError msg).
Proof.
  intros Wp Ws Hs Hm. rewrite resolve_season_whole by assumption.
  destruct (negb (sp =? 0) && (sp / step <? 2)); [eauto|].
  replace (sp mod step =? 0) with false by (symmetry; now apply Z.eqb_neq).
  simpl. eauto.
Qed.

Lemma not_multiple_rejected_witness :
  exists msg,
    resolve_season (Some (seconds 150)) (seconds 60) = raise (ParserError msg).
Proof.
  apply (not_multiple_rejected (seconds 150) (seconds 60)).
  - exists 150. split; reflexivity.
  - exists 60. split; reflexivity.
  - discriminate.
  - discriminate.
Defined.

(** X4.  What a successful validation leaves, on any durations: a
    supplied period, and an offset that is zero for the zero period and
    at least two otherwise, so never one and never negative.  On
    durations of whole seconds the period is moreover a multiple of the
    step and the offset is the quotient. *)
Theorem validated_offset (seasonal_period : option timedelta)
    (step : timedelta) (offset : Z) :
  resolve_season seasonal_period step = ret offset ->
  exists sp, seasonal_period = Some sp
             /\ ((sp = 0 /\ offset = 0) \/ (sp <> 0 /\ 2 <= offset))
             /\ (whole_seconds sp -> whole_seconds step ->
                 step <> 0 /\ offset = sp / step /\ sp mod step = 0).
Proof.
  intros H. destruct (validated_offset_shape _ _ _ H) as (sp & -> & So & Sh).
  exists sp. split; [reflexivity|]. split; [exact Sh|].
  intros Wp Ws.
  assert (Hs : step <> 0).
  { intros ->. rewrite resolve_season_zero_step in H. discriminate. }
  split; [exact Hs|].
  rewrite (resolve_season_whole sp step Wp Ws Hs) in H.
  destruct (negb (sp =? 0) && (sp / step <? 2)); [discriminate|].
  destruct (Z.eqb_spec (sp mod step) 0) as [M|M]; [|discriminate].
  simpl in H. unfold ret in H. injection H as <-.
  split; [reflexivity | exact M].
Qed.

Lemma validated_offset_witness :
  exists sp, Some (hours 24) = Some sp
             /\ ((sp = 0 /\ 24 = 0) \/ (sp <> 0 /\ 2 <= 24))
             /\ (whole_seconds sp -> whole_seconds (hours 1) ->
                 hours 1 <> 0 /\ 24 = sp / hours 1 /\ sp mod hours 1 = 0).
Proof.
  apply (validated_offset (Some (hours 24)) (hours 1) 24).
  vm_compute. reflexivity.
Defined.

(** ** The loop over the data sources *)

Section ScriptFacts.

Context `{C : Collaborators}.

Lemma lines_of_app (a b : list printed) :
  lines_of (a ++ b) = lines_of a ++ lines_of b.
Proof. apply flat_map_app. Qed.

Lemma lines_of_lines (l : list string) : lines_of (map Line l) = l.
Proof.
  induction l as [|x l IH]; simpl; [reflexivity | now rewrite IH].
Qed.

Lemma summaries_app (a b : list printed) (e : list string) (e' : list string) :
  summaries {| stdout := a ++ b; export := e |}
  = summaries {| stdout := a; export := e' |}
    ++ summaries {| stdout := b; export := e' |}.
Proof. apply flat_map_app. Qed.

Lemma summaries_lines (l : list string) (e : list string) :
  summaries {| stdout := map Line l; export := e |} = [].
Proof.
  unfold summaries. cbn [stdout].
  induction l as [|x l IH]; simpl; [reflexivity | exact IH].
Qed.

Lemma for_each_app {A} (l1 l2 : list A) (body : A -> M unit) (w : world) :
  for_each (l1 ++ l2) body w =
  match for_each l1 body w with
  | (inl e, w') => (inl e, w')
  | (inr _, w') => for_each l2 body w'
  end.
Proof.
  revert w. induction l1 as [|x l1 IH]; intros w; simpl.
  - reflexivity.
  - unfold mbind. destruct (body x w) as [[e|[]] w']; [reflexivity|].
    apply IH.
Qed.

Variables (args : Args) (f : Fetched) (offset : Z).

(** The rows of a forecast, written one after the other. *)
Lemma for_each_print_export {A} (l : list A) (line : A -> string) (w : world) :
  for_each l (fun x => print_export args (line x)) w =
  (ret tt,
   if to_stdout args
   then {| stdout := stdout w ++ map Line (map line l); export := export w |}
   else {| stdout := stdout w; export := export w ++ map line l |}).
Proof.
  revert w. induction l as [|x l IH]; intros w; simpl.
  - unfold pure. rewrite !app_nil_r. destruct w. now destruct (to_stdout args).
  - unfold mbind, print_export at 1. rewrite IH.
    destruct (to_stdout args); cbn [stdout export];
      now rewrite <- app_assoc.
Qed.

Lemma exported_rows {A} (l : list A) (line : A -> string) (w : world) :
  exported args (snd (for_each l (fun x => print_export args (line x)) w))
  = exported args w ++ map line l.
Proof.
  rewrite for_each_print_export. unfold exported. cbn [snd].
  destruct (to_stdout args); cbn [stdout export]; [|reflexivity].
  now rewrite lines_of_app, lines_of_lines.
Qed.

Lemma summaries_rows {A} (l : list A) (line : A -> string) (w : world) :
  summaries (snd (for_each l (fun x => print_export args (line x)) w))
  = summaries w.
Proof.
  rewrite for_each_print_export. cbn [snd].
  destruct (to_stdout args); [|reflexivity].
  rewrite (summaries_app _ _ _ (export w)), summaries_lines.
  rewrite app_nil_r. now destruct w.
Qed.

Lemma exported_summary (s : Summary) (w : world) :
  exported args (snd (print_stdout s w)) = exported args w.
Proof.
  unfold exported, print_stdout. cbn [snd stdout export].
  destruct (to_stdout args); [|reflexivity].
  rewrite lines_of_app. apply app_nil_r.
Qed.

Lemma summaries_summary (s : Summary) (w : world) :
  summaries (snd (print_stdout s w)) = summaries w ++ [s].
Proof.
  unfold print_stdout. cbn [snd].
  rewrite (summaries_app _ _ _ (export w)). now destruct w.
Qed.

(** A turn of the loop: it raises what the first failing step of lines
    89-127 raises; it prints the summary once the model is estimated,
    and writes the rows once lines 99-127 are through. *)
Lemma process_source_turn (source : string) (raw : Series) (w : world) :
  fst (process_source args f offset source raw w)
  = match turn args f offset (source, raw) with
    | inl e => raise e
    | inr _ => ret tt
    end
  /\ exported args (snd (process_source args f offset source raw w))
     = exported args w ++ source_rows args f offset (source, raw)
  /\ summaries (snd (process_source args f offset source raw w))
     = summaries w ++ source_summaries args offset (source, raw).
Proof.
  unfold process_source, turn, source_rows, source_summaries, turn.
  cbn [fst snd]. unfold mbind, lift.
  destruct (fit_model args offset (interpolate_time raw)) as [e|fit];
    cbn [bind fst snd].
  - now rewrite !app_nil_r.
  - change (print_stdout (summary fit) w)
      with (@inr exn unit tt, snd (print_stdout (summary fit) w)).
    cbv iota.
    destruct (forecast args f source (interpolate_time raw) fit)
      as [e|prediction]; cbn [bind fst snd].
    + rewrite app_nil_r.
      split; [reflexivity|].
      split; [apply exported_summary | apply summaries_summary].
    + unfold when, ret. cbv iota beta.
      destruct (export_requested args).
      * split; [now rewrite (for_each_print_export prediction
                               (export_row source))|].
        rewrite (exported_rows prediction (export_row source)).
        rewrite (summaries_rows prediction (export_row source)).
        now rewrite exported_summary, summaries_summary.
      * unfold pure. cbn [fst snd]. rewrite app_nil_r.
        split; [reflexivity|].
        split; [apply exported_summary | apply summaries_summary].
Qed.

Lemma process_source_fit_fails (source : string) (raw : Series) (e : exn)
    (w : world) :
  fit_model args offset (interpolate_time raw) = raise e ->
  process_source args f offset source raw w = (raise e, w).
Proof.
  intros H. unfold process_source, mbind, lift. now rewrite H.
Qed.

Lemma fit_fails_turn (item : string * Series) (e : exn) :
  fit_model args offset (interpolate_time (snd item)) = raise e ->
  turn args f offset item = raise e.
Proof.
  intros H. unfold turn. now rewrite H.
Qed.

Lemma completes_fits (item : string * Series) :
  completes args f offset item -> fits args offset item.
Proof.
  intros (fit & prediction & H). unfold turn in H. unfold fits.
  destruct (fit_model args offset (interpolate_time (snd item))) as [e|fit'];
    [discriminate|].
  now exists fit'.
Qed.


Lemma loop_all_complete (l : list (string * Series)) (w : world) :
  Forall (completes args f offset) l ->
  fst (for_each l (loop_body args f offset) w) = ret tt
  /\ exported args (snd (for_each l (loop_body args f offset) w))
     = exported args w ++ flat_map (source_rows args f offset) l
  /\ summaries (snd (for_each l (loop_body args f offset) w))
     = summaries w ++ flat_map (source_summaries args offset) l.
Proof.
  intros H. revert w.
  induction H as [|[source raw] l (fit & prediction & Hx) Hl IH]; intros w.
  - cbn [for_each flat_map]. unfold pure. cbn [fst snd].
    now rewrite !app_nil_r.
  - cbn [for_each flat_map]. unfold mbind, loop_body at 1 3 5.
    destruct (process_source_turn source raw w) as (T1 & T2 & T3).
    rewrite Hx in T1.
    destruct (process_source args f offset source raw w) as [[e|[]] w'];
      cbn [fst snd] in T1, T2, T3; [discriminate|].
    destruct (IH w') as (I1 & I2 & I3).
    rewrite I1, I2, I3, T2, T3. now rewrite !app_assoc.
Qed.

Lemma loop_first_failure (before after : list (string * Series))
    (source : string) (raw : Series) (e : exn) (w : world) :
  Forall (completes args f offset) before ->
  turn args f offset (source, raw) = raise e ->
  let r := for_each (before ++ (source, raw) :: after)
             (loop_body args f offset) w in
  fst r = raise e
  /\ exported args (snd r)
     = exported args w ++ flat_map (source_rows args f offset) before
  /\ summaries (snd r)
     = summaries w ++ flat_map (source_summaries args offset) before
       ++ source_summaries args offset (source, raw).
Proof.
  intros Hb He. cbv zeta. rewrite for_each_app.
  destruct (loop_all_complete before w Hb) as (B1 & B2 & B3).
  destruct (for_each before (loop_body args f offset) w) as [[e'|[]] w'];
    cbn [fst snd] in B1, B2, B3; [discriminate|].
  cbn [for_each]. unfold mbind, loop_body at 1 3 5.
  destruct (process_source_turn source raw w') as (T1 & T2 & T3).
  rewrite He in T1.
  assert (R : source_rows args f offset (source, raw) = [])
    by (unfold source_rows; now rewrite He).
  rewrite R, app_nil_r in T2.
  destruct (process_source args f offset source raw w') as [[e'|[]] w''];
    cbn [fst snd] in T1, T2, T3 |- *; [|discriminate].
  rewrite T2, T3, B2, B3. rewrite <- app_assoc.
  repeat split; assumption || reflexivity.
Qed.

(** The script up to the loop, once the validation has passed. *)
Lemma main_validated :
  resolve_season (seasonal_period args) (step f) = ret offset ->
  main args f initial_world =
  for_each (data f) (loop_body args f offset)
    {| stdout := stdout_header args; export := file_header args |}.
Proof.
  intros H. unfold main, mbind, lift. rewrite H.
  unfold when, print_export, stdout_header, file_header, export_header,
    export_requested, to_stdout.
  destruct (output_filename args) as [name|]; [|reflexivity].
  destruct (String.eqb name "-"); reflexivity.
Qed.

Lemma exported_header :
  exported args {| stdout := stdout_header args; export := file_header args |}
  = export_header args.
Proof.
  unfold exported, stdout_header, file_header. cbn [stdout export].
  destruct (to_stdout args); [apply lines_of_lines | reflexivity].
Qed.

Lemma summaries_header :
  summaries {| stdout := stdout_header args; export := file_header args |}
  = [].
Proof.
  unfold stdout_header. destruct (to_stdout args); [|reflexivity].
  apply summaries_lines.
Qed.

(** Without [-o] a turn of the loop leaves the export as it is, however
    it ends. *)
Lemma loop_without_export (l : list (string * Series)) (w : world) :
  export_requested args = false ->
  export (snd (for_each l (loop_body args f offset) w)) = export w.
Proof.
  intros Hx. revert w. induction l as [|[source raw] l IH]; intros w.
  - reflexivity.
  - cbn [for_each]. unfold mbind, loop_body at 1.
    unfold process_source, mbind, lift, when. rewrite Hx.
    destruct (fit_model args offset (interpolate_time raw)) as [e|fit];
      [reflexivity|].
    cbn [print_stdout].
    destruct (forecast args f source (interpolate_time raw) fit)
      as [e|prediction]; [reflexivity|].
    unfold pure, ret. cbv iota beta. now rewrite IH.
Qed.

End ScriptFacts.

(** ** The fit: claims *)

Section FitClaims.

Context `{C : Collaborators}.

(** C4.  The model that is fitted on a series is the seasonal one, with
    the order and the 4-tuple [base + [season_offset]] made from the
    seasonal order triple [base], when [season_offset > 0]; and it is
    the plain one, with the order alone, when [season_offset > 0] does
    not hold. *)
Theorem fit_branch_selection (args : Args) (offset : Z) (series : Series) :
  (0 < offset ->
   forall base, seasonal_order args = Some base ->
     fit_model args offset series
     = ARIMA_fit {| endog := series; call_order := order args;
                    call_seasonal_order := Some (base ++ [offset]) |}
     /\ (List.length base = 3%nat -> List.length (base ++ [offset]) = 4%nat))
  /\ (~ 0 < offset ->
      fit_model args offset series
      = ARIMA_fit {| endog := series; call_order := order args;
                     call_seasonal_order := None |}).
Proof.
  unfold fit_model, select_model. split.
  - intros Hpos base Hb. apply Z.ltb_lt in Hpos. rewrite Hpos, Hb. simpl.
    split; [reflexivity|].
    intros Hl. rewrite length_app, Hl. reflexivity.
  - intros Hneg. apply Z.ltb_nlt in Hneg. rewrite Hneg. reflexivity.
Qed.

(** C10.  A seasonal period of zero length, supplied with a seasonal
    order on an hourly grid, passes the validation with offset 0, and
    the test [season_offset > 0] then selects the plain model: the
    seasonal branch is not taken although a period was supplied. *)
Theorem zero_period_selects_plain_model (series : Series) :
  let args := {| order := [1; 0; 0];
                 seasonal_order := Some [1; 0; 1];
                 seasonal_period := Some (seconds 0);
                 forecast_period := days 1;
                 output_filename := None |} in
  resolve_season (seasonal_period args) (hours 1) = ret 0
  /\ select_model args 0 series
     = ret {| endog := series; call_order := [1; 0; 0];
              call_seasonal_order := None |}.
Proof.
  split; [vm_compute|]; reflexivity.
Qed.

End FitClaims.

Section FitWitness.

#[local] Existing Instance Toy.collaborators.

Lemma fit_branch_selection_witness :
  (fit_model Toy.args 24 [5; 7]
   = ARIMA_fit {| endog := [5; 7]; call_order := [1; 0; 0];
                  call_seasonal_order := Some [1; 0; 1; 24] |}
   /\ (List.length [1; 0; 1] = 3%nat -> List.length [1; 0; 1; 24] = 4%nat))
  /\ fit_model Toy.args 0 [5; 7]
     = ARIMA_fit {| endog := [5; 7]; call_order := [1; 0; 0];
                    call_seasonal_order := None |}.
Proof.
  split.
  - apply (@fit_branch_selection Toy.collaborators Toy.args 24 [5; 7]);
      reflexivity.
  - apply (@fit_branch_selection Toy.collaborators Toy.args 0 [5; 7]).
    discriminate.
Defined.

End FitWitness.

(** ** The batch and its export: claims *)

Section BatchClaims.

Context `{C : Collaborators}.


(** C2, as the script has it.  When the validation passes and the
    model of a source raises, the exception leaves the loop and ends
    the run at that source: the sources before it, when each completed
    its turn, have their summary printed and their rows exported, after
    the header; the source that failed and all the sources after it add
    nothing. *)
Theorem fit_failure_ends_run (args : Args) (f : Fetched) (offset : Z)
    (before after : list (string * Series)) (source : string)
    (raw : Series) (e : exn) :
  resolve_season (seasonal_period args) (step f) = ret offset ->
  data f = before ++ (source, raw) :: after ->
  Forall (completes args f offset) before ->
  fit_model args offset (interpolate_time raw) = raise e ->
  fst (main args f initial_world) = raise e
  /\ exported args (snd (main args f initial_world))
     = export_header args ++ flat_map (source_rows args f offset) before
  /\ summaries (snd (main args f initial_world))
     = flat_map (source_summaries args offset) before.
Proof.
  intros Hv Hd Hb He.
  rewrite (main_validated args f offset Hv), Hd.
  destruct (loop_first_failure args f offset before after source raw e
              {| stdout := stdout_header args; export := file_header args |}
              Hb (fit_fails_turn args f offset (source, raw) e He))
    as (L1 & L2 & L3).
  rewrite exported_header in L2. rewrite summaries_header in L3.
  unfold source_summaries at 2 in L3. cbn [snd] in L3.
  rewrite He in L3. unfold raise in L3. rewrite app_nil_r in L3.
  split; [exact L1|]. split; [exact L2 | exact L3].
Qed.

(** C7.  [--seasonal_period=1d] without a seasonal order, on an hourly
    grid with at least one source, the export being requested: line
    47 does not make the seasonal order required, since neither [-m]
    nor [--seasonal_period] is an element of [sys.argv]; the
    validation passes with offset 24, the header is written, and the
    first turn of the loop raises [TypeError] on
    [args.seasonal_order + [season_offset]]. *)
Theorem unpaired_seasonal_period_raises (first last_ : datetime)
    (source : string) (raw : Series) (rest : list (string * Series)) :
  let argv := ["arima.py"; "data.rrd"; "-r"; "1"; "0"; "0";
               "--seasonal_period=1d"; "-o"; "out.csv"]%string in
  let args := {| order := [1; 0; 0];
                 seasonal_order := None;
                 seasonal_period := Some (days 1);
                 forecast_period := days 1;
                 output_filename := Some "out.csv"%string |} in
  let f := {| start := first; end_ := last_; step := hours 1;
              data := (source, raw) :: rest |} in
  seasonal_order_required argv = false
  /\ resolve_season (seasonal_period args) (step f) = ret 24
  /\ main args f initial_world
     = (raise TypeError,
        {| stdout := []; export := ["ds,timestamp,value"%string] |}).
Proof.
  intros argv args f.
  assert (Hv : resolve_season (seasonal_period args) (step f) = ret 24)
    by (vm_compute; reflexivity).
  split; [reflexivity | split; [exact Hv|]].
  rewrite (main_validated args f 24 Hv).
  cbn [data f for_each]. unfold mbind, loop_body.
  now rewrite (process_source_fit_fails args f 24 source raw TypeError).
Qed.

End BatchClaims.

Section BatchWitnesses.

#[local] Existing Instance Toy.collaborators.



Lemma fit_failure_ends_run_witness :
  fst (main Toy.args Toy.fetched_mixed initial_world)
  = raise (FitError "too few observations")
  /\ exported Toy.args (snd (main Toy.args Toy.fetched_mixed initial_world))
     = ["ds,timestamp,value"; "a,0,2"; "a,90000,2"]%string
  /\ summaries (snd (main Toy.args Toy.fetched_mixed initial_world))
     = [2%nat].
Proof.
  apply (@fit_failure_ends_run Toy.collaborators Toy.args Toy.fetched_mixed 24
           [("a", [1; 2])]%string [("b", [5; 7; 9])]%string
           "short"%string [5] (FitError "too few observations")).
  - vm_compute. reflexivity.
  - reflexivity.
  - repeat constructor. exists [1; 2], [(0, 2); (hours 25, 2)].
    vm_compute. reflexivity.
  - reflexivity.
Defined.

(** C2, as it is stated, fails: in the batch [Toy.fetched] of two
    sources the first one raises a [FitError] on fitting; the second
    one would complete its turn on its own, and yet the run ends with
    the error of the first one and the export holds the header only:
    no summary and no row of the second source. *)
Lemma fit_failure_not_isolated :
  (2 <= List.length (data Toy.fetched))%nat
  /\ resolve_season (seasonal_period Toy.args) (step Toy.fetched) = ret 24
  /\ fit_model Toy.args 24 (interpolate_time [5])
     = raise (FitError "too few observations")
  /\ completes Toy.args Toy.fetched 24 ("full"%string, [5; 7])
  /\ source_rows Toy.args Toy.fetched 24 ("full"%string, [5; 7])
     = ["full,0,2"; "full,90000,2"]%string
  /\ main Toy.args Toy.fetched initial_world
     = (raise (FitError "too few observations"),
        {| stdout := []; export := ["ds,timestamp,value"%string] |}).
Proof.
  split; [simpl; lia|].
  split; [vm_compute; reflexivity|].
  split; [reflexivity|].
  split; [exists [5; 7], [(0, 2); (hours 25, 2)]; vm_compute; reflexivity|].
  split; vm_compute; reflexivity.
Qed.


End BatchWitnesses.

(** ** Further properties of the run *)

Section RunFacts.

Context `{C : Collaborators}.

(** X5.  On a grid whose step is zero, a run with a seasonal period
    ends with [ZeroDivisionError] (line 78 or line 82) before anything is
    written. *)
Theorem zero_step_divides_by_zero (args : Args) (f : Fetched)
    (sp : timedelta) (w : world) :
  seasonal_period args = Some sp -> step f = 0 ->
  main args f w = (raise ZeroDivisionError, w).
Proof.
  intros Hp Hs. unfold main, mbind, lift.
  rewrite Hp, Hs, resolve_season_zero_step. reflexivity.
Qed.

(** X6.  When lines 78-83 raise, whatever the exception, the run ends
    there: the header is not written, no model is fitted and nothing is
    printed. *)
Theorem rejected_configuration_writes_nothing (args : Args) (f : Fetched)
    (e : exn) (w : world) :
  resolve_season (seasonal_period args) (step f) = raise e ->
  main args f w = (raise e, w).
Proof.
  intros H. unfold main, mbind, lift. now rewrite H.
Qed.

(** X7.  Without [-o] nothing is ever written to the export, however
    the run ends. *)
Theorem no_export_without_output_file (args : Args) (f : Fetched) :
  output_filename args = None ->
  export (snd (main args f initial_world)) = [].
Proof.
  intros Ho.
  assert (Hx : export_requested args = false)
    by (unfold export_requested; now rewrite Ho).
  destruct (resolve_season (seasonal_period args) (step f)) as [e|offset] eqn:E.
  - unfold main, mbind, lift. now rewrite E.
  - rewrite (main_validated args f offset E).
    rewrite loop_without_export by assumption.
    unfold file_header, export_header, to_stdout. cbn [export].
    now rewrite Ho, Hx.
Qed.

(** X8.  A validated run with a positive offset and no seasonal order:
    with no data source it ends normally, having written the header at
    most; with at least one it raises [TypeError] in the first turn of
    the loop, before any model is fitted or any summary printed.  The
    header is in the file of the export, or on the standard output
    with [-o -]. *)
Theorem missing_seasonal_order_raises (args : Args) (f : Fetched)
    (offset : Z) :
  seasonal_order args = None ->
  resolve_season (seasonal_period args) (step f) = ret offset ->
  0 < offset ->
  main args f initial_world
  = (match data f with
     | [] => ret tt
     | _ :: _ => raise TypeError
     end,
     {| stdout := stdout_header args; export := file_header args |}).
Proof.
  intros Hn Hv Hpos. rewrite (main_validated args f offset Hv).
  destruct (data f) as [|[source raw] rest].
  - reflexivity.
  - cbn [for_each]. unfold mbind, loop_body.
    rewrite (process_source_fit_fails args f offset source raw TypeError);
      [reflexivity|].
    unfold fit_model, select_model.
    apply Z.ltb_lt in Hpos. now rewrite Hpos, Hn.
Qed.

(** The rows of a list of sources that all complete, each with a point
    forecast of [n] items. *)
Lemma source_rows_count (args : Args) (f : Fetched) (offset : Z) (n : nat)
    (l : list (string * Series)) :
  export_requested args = true ->
  Forall (fun item =>
            exists fit prediction,
              turn args f offset item = ret (fit, prediction)
              /\ List.length prediction = n)
         l ->
  List.length (flat_map (source_rows args f offset) l)
  = (n * List.length l)%nat.
Proof.
  intros Hx Hall.
  induction Hall as [|item l (fit & prediction & E & Hn) _ IH].
  - simpl. now rewrite Nat.mul_0_r.
  - cbn [flat_map]. rewrite length_app, IH. cbn [List.length].
    unfold source_rows. rewrite E, Hx. unfold ret. cbv iota beta.
    rewrite length_map, Hn. lia.
Qed.

(** X9.  In a validated run with the export requested, when every
    source completes its turn with a point forecast of [n] items, the
    lines written through [args.output_filename] are one header line
    and [n] rows for each source. *)
Theorem export_row_count (args : Args) (f : Fetched) (offset : Z) (n : nat) :
  resolve_season (seasonal_period args) (step f) = ret offset ->
  export_requested args = true ->
  Forall (fun item =>
            exists fit prediction,
              turn args f offset item = ret (fit, prediction)
              /\ List.length prediction = n)
         (data f) ->
  List.length (exported args (snd (main args f initial_world)))
  = (1 + n * List.length (data f))%nat.
Proof.
  intros Hv Hx Hall. rewrite (main_validated args f offset Hv).
  assert (Hc : Forall (completes args f offset) (data f)).
  { eapply Forall_impl; [|exact Hall].
    intros item (fit & prediction & E & _). now exists fit, prediction. }
  destruct (loop_all_complete args f offset (data f)
              {| stdout := stdout_header args; export := file_header args |}
              Hc) as (_ & L2 & _).
  rewrite L2, exported_header. unfold export_header. rewrite Hx.
  cbn [List.length app].
  now rewrite (source_rows_count args f offset n (data f) Hx Hall).
Qed.



End RunFacts.

Section RunWitnesses.

#[local] Existing Instance Toy.collaborators.

Lemma zero_step_divides_by_zero_witness :
  main Toy.args Toy.fetched_zero_step initial_world
  = (raise ZeroDivisionError, initial_world).
Proof.
  apply (@zero_step_divides_by_zero Toy.collaborators Toy.args
           Toy.fetched_zero_step (days 1) initial_world); reflexivity.
Defined.

Lemma rejected_configuration_writes_nothing_witness :
  main Toy.args Toy.fetched_daily initial_world
  = (raise (ParserError (SeasonalPeriodTooShort (days 1) (Some (days 1)))),
     initial_world).
Proof.
  apply (@rejected_configuration_writes_nothing Toy.collaborators Toy.args
           Toy.fetched_daily
           (ParserError (SeasonalPeriodTooShort (days 1) (Some (days 1))))
           initial_world).
  vm_compute. reflexivity.
Defined.

Lemma no_export_without_output_file_witness :
  export (snd (main Toy.args_display Toy.fetched_mixed initial_world)) = [].
Proof.
  apply (@no_export_without_output_file Toy.collaborators
           Toy.args_display Toy.fetched_mixed).
  reflexivity.
Defined.

Lemma missing_seasonal_order_raises_witness :
  main Toy.args_unpaired Toy.fetched_good initial_world
  = (raise TypeError,
     {| stdout := []; export := ["ds,timestamp,value"%string] |}).
Proof.
  apply (@missing_seasonal_order_raises Toy.collaborators
           Toy.args_unpaired Toy.fetched_good 24);
    [reflexivity | vm_compute; reflexivity | reflexivity].
Defined.

Lemma export_row_count_witness :
  List.length
    (exported Toy.args (snd (main Toy.args Toy.fetched_good initial_world)))
  = (1 + 2 * List.length (data Toy.fetched_good))%nat.
Proof.
  apply (@export_row_count Toy.collaborators Toy.args Toy.fetched_good 24 2%nat).
  - vm_compute. reflexivity.
  - reflexivity.
  - repeat constructor.
    + exists [1; 2], [(0, 2); (hours 25, 2)]. split; vm_compute; reflexivity.
    + exists [5; 7; 9], [(0, 3); (hours 25, 3)].
      split; vm_compute; reflexivity.
Defined.


End RunWitnesses.

(** ** The timestamps of the export *)

(** An instant in the year 2261, one microsecond before a whole
    second: the double of its quotient is the whole second itself, and
    the exported integer is one more than the truncated instant. *)
Lemma timestamp_rounds_up :
  Z.quot 9200000000999999 1000000 = 9200000000
  /\ PyFloat.int (timestamp 9200000000999999) = 9200000001.
Proof.
  split; vm_compute; reflexivity.
Qed.

(** X10.  [int(dt.timestamp())] on an instant between two whole
    seconds [n] and [n + 1], both less than 4611686018 seconds away from
    the epoch: the exported integer is [n] or [n + 1], and it is [n]
    for the instant on the whole second [n].  The quotient of line 131
    is rounded to a double and then to six decimals, so the integer
    part is not always that of the instant. *)
Theorem exported_timestamp_truncates (dt : datetime) (n : Z) :
  Z.abs n < 4611686018 -> Z.abs (n + 1) < 4611686018 ->
  seconds n <= dt <= seconds (n + 1) ->
  n <= PyFloat.int (timestamp dt) <= n + 1
  /\ (dt = seconds n -> PyFloat.int (timestamp dt) = n).
Proof.
  intros Hn Hn1 [Hlo Hhi].
  pose proof (int_Z _ _ (timestamp_whole_second n Hn)) as En.
  pose proof (int_Z _ _ (timestamp_whole_second (n + 1) Hn1)) as En1.
  pose proof (int_mono _ _ (timestamp_mono _ _ Hlo)) as Mlo.
  pose proof (int_mono _ _ (timestamp_mono _ _ Hhi)) as Mhi.
  rewrite En in Mlo. rewrite En1 in Mhi.
  split; [split; assumption|].
  intros ->. exact En.
Qed.

Lemma exported_timestamp_truncates_witness :
  1 <= PyFloat.int (timestamp 1500000) <= 1 + 1
  /\ (1500000 = seconds 1 -> PyFloat.int (timestamp 1500000) = 1).
Proof.
  apply (exported_timestamp_truncates 1500000 1).
  - reflexivity.
  - reflexivity.
  - split; discriminate.
Defined.

(** X11.  When the labels of a point forecast are in chronological
    order, the integer timestamps of its export rows are in
    non-decreasing order. *)
Theorem exported_timestamps_chronological (labels : list datetime) :
  StronglySorted Z.le labels ->
  StronglySorted Z.le (map (fun dt => PyFloat.int (timestamp dt)) labels).
Proof.
  induction 1 as [|dt labels _ IH Hall]; simpl.
  - constructor.
  - constructor; [exact IH|].
    apply Forall_map. eapply Forall_impl; [|exact Hall].
    intros dt' Hle. apply int_mono, timestamp_mono. exact Hle.
Qed.

Lemma exported_timestamps_chronological_witness :
  StronglySorted Z.le
    (map (fun dt => PyFloat.int (timestamp dt))
         [0; 1500000; 1700000; hours 1]).
Proof.
  apply (exported_timestamps_chronological [0; 1500000; 1700000; hours 1]).
  repeat constructor; discriminate.
Defined.

(** ** The pairing of the seasonal arguments *)

(** X12.  Lines 47 and 55 look for the option as a whole element of
    [sys.argv]: an element [--seasonal_period=VALUE] anywhere on the
    command line does not make the seasonal order required, and an
    element [--seasonal_order=VALUE] does not make the seasonal period
    required. *)
Theorem joined_option_not_seen (before after : list string) (v : string) :
  seasonal_order_required
    (before ++ ("--seasonal_period=" ++ v)%string :: after)
  = seasonal_order_required (before ++ after)
  /\ seasonal_period_required
       (before ++ ("--seasonal_order=" ++ v)%string :: after)
     = seasonal_period_required (before ++ after).
Proof.
  unfold seasonal_order_required, seasonal_period_required.
  rewrite !existsb_app. split; reflexivity.
Qed.

(** ** The figure *)

Section FigureFacts.

Context `{C : Collaborators}.

Lemma mask_all_true (end_ : datetime) (l : list datetime) :
  Forall (fun t => end_ <= t) l ->
  map (fun t => end_ <=? t) l = repeat true (List.length l).
Proof.
  induction 1 as [|t l Ht _ IH]; simpl.
  - reflexivity.
  - apply Z.leb_le in Ht. now rewrite Ht, IH.
Qed.

Lemma mask_sorted (end_ : datetime) (l : list datetime) :
  StronglySorted Z.le l ->
  exists k,
    map (fun t => end_ <=? t) l
    = repeat false k ++ repeat true (List.length l - k)
    /\ Forall (fun t => t < end_) (firstn k l)
    /\ Forall (fun t => end_ <= t) (skipn k l).
Proof.
  induction 1 as [|t l _ IH Hall].
  - exists 0%nat. repeat split; constructor.
  - destruct (Z.leb_spec end_ t) as [Hle|Hlt].
    + exists 0%nat. cbn [repeat app firstn skipn]. rewrite Nat.sub_0_r.
      assert (Hge : Forall (fun t' => end_ <= t') (t :: l)).
      { constructor; [exact Hle|].
        eapply Forall_impl; [|exact Hall]. intros t' Ht'. simpl in Ht'. lia. }
      repeat split; [now apply mask_all_true | constructor | exact Hge].
    + destruct IH as (k & Hmask & Hbefore & Hafter).
      exists (S k). cbn [map repeat app firstn skipn List.length Nat.sub].
      apply Z.leb_gt in Hlt as Hb. rewrite Hb, Hmask.
      repeat split; [constructor; assumption | assumption].
Qed.

(** X13.  When the index of a confidence band is in chronological
    order, its shading is one stretch at the end of the index: it
    starts at the first label that is not before [end] and covers every
    label from there on, and no label before [end] is shaded. *)
Theorem shading_is_forecast_tail (end_ : datetime) (level : Z)
    (index : list datetime) (lower upper : list value) :
  StronglySorted Z.le index ->
  exists k,
    fill_where (fill_between end_ level index lower upper)
    = repeat false k ++ repeat true (List.length index - k)
    /\ Forall (fun t => t < end_)
              (firstn k (fill_x (fill_between end_ level index lower upper)))
    /\ Forall (fun t => end_ <= t)
              (skipn k (fill_x (fill_between end_ level index lower upper))).
Proof.
  intros Hs. exact (mask_sorted end_ index Hs).
Qed.

(** X14.  On a grid with a positive step, for every band whose two
    columns are found, the call of [fill_between] that lines 112-121
    make has one mask entry for each label of the band, and the line of
    the last observation (line 110) is before every label it shades. *)
Theorem shading_after_last_observation (f : Fetched) (level : Z)
    (confidence_interval : Frame) (lower upper : list value) :
  0 < step f ->
  getitem confidence_interval "lower y" = ret lower ->
  getitem confidence_interval "upper y" = ret upper ->
  exists band,
    draw_band (end_ f) (level, confidence_interval)
    = matplotlib (Fill_between band)
    /\ fill_x band = frame_index confidence_interval
    /\ List.length (fill_where band) = List.length (fill_x band)
    /\ Forall (fun item =>
                 snd item = true -> last_observation f < fst item)
              (combine (fill_x band) (fill_where band)).
Proof.
  intros Hstep Hl Hu.
  exists (fill_between (end_ f) level (frame_index confidence_interval)
            lower upper).
  split; [unfold draw_band; now rewrite Hl, Hu|].
  split; [reflexivity|].
  cbn [fill_between fill_where fill_x]. split.
  - now rewrite length_map.
  - unfold last_observation.
    induction (frame_index confidence_interval) as [|t l IH]; simpl.
    + constructor.
    + constructor; [|exact IH]. cbn [fst snd].
      intros Ht. apply Z.leb_le in Ht. lia.
Qed.

End FigureFacts.

Section FigureWitnesses.

#[local] Existing Instance Toy.collaborators.

Lemma shading_is_forecast_tail_witness :
  exists k,
    fill_where (fill_between (hours 2) 25 [0; hours 1; hours 2; hours 3]
                  [1; 1; 1; 1] [3; 3; 3; 3])
    = repeat false k ++ repeat true (4 - k)
    /\ Forall (fun t => t < hours 2)
              (firstn k (fill_x (fill_between (hours 2) 25
                                   [0; hours 1; hours 2; hours 3]
                                   [1; 1; 1; 1] [3; 3; 3; 3])))
    /\ Forall (fun t => hours 2 <= t)
              (skipn k (fill_x (fill_between (hours 2) 25
                                  [0; hours 1; hours 2; hours 3]
                                  [1; 1; 1; 1] [3; 3; 3; 3]))).
Proof.
  apply (@shading_is_forecast_tail Toy.collaborators (hours 2) 25
           [0; hours 1; hours 2; hours 3] [1; 1; 1; 1] [3; 3; 3; 3]).
  repeat constructor; discriminate.
Defined.

Lemma shading_after_last_observation_witness :
  exists band,
    draw_band (end_ Toy.fetched_good)
      (25, ("y"%string, [(0, (1, 3)); (hours 25, (1, 3))]))
    = matplotlib (Fill_between band)
    /\ fill_x band = [0; hours 25]
    /\ List.length (fill_where band) = List.length (fill_x band)
    /\ Forall (fun item =>
                 snd item = true ->
                 last_observation Toy.fetched_good < fst item)
              (combine (fill_x band) (fill_where band)).
Proof.
  apply (@shading_after_last_observation Toy.collaborators
           Toy.fetched_good 25
           ("y"%string, [(0, (1, 3)); (hours 25, (1, 3))]) [1; 1] [3; 3]);
    reflexivity.
Defined.

End FigureWitnesses.
